(** * file-explore: the SPA router (src/js/router.js)

    A shallow embedding of the [Router] class: the route table built from the
    manifest, the path normalizer, the named-route resolver, the navigation
    handler with its redirects, and the parts of the document the router
    writes (layout chrome, breadcrumb, active links, content region, title).

    Conventions.
    - JavaScript strings are [string]; every pattern the router tests is
      ASCII, so prefix and suffix tests on bytes agree with the tests on
      UTF-16 code units.
    - A [Map] is an association list in insertion order: [Map.prototype.set]
      on a key already present replaces the value where it stands.
    - [window.location.pathname] reads back the URL last given to
      [history.pushState] / [history.replaceState] as it was written (the
      routes are plain absolute paths).
    - [handleRoute] re-enters itself through [navigate]; the embedding counts
      the passes with a fuel argument. *)

From Stdlib Require Import String Ascii List Bool Arith Lia.
Import ListNotations.
Open Scope string_scope.

(** ** JavaScript values and strings *)

(** A property that holds a string, [null], or is absent ([undefined]):
    [item.content_path] of a manifest node. *)
Inductive JsOptString : Type :=
| JsUndefined
| JsNull
| JsString (s : string).

(** Truthiness of a string: only the empty string is falsy. *)
Definition nonEmpty (s : string) : bool := negb (s =? "").

(** [!!v]. *)
Definition truthy (v : JsOptString) : bool :=
  match v with
  | JsString s => nonEmpty s
  | _ => false
  end.

(** [`${v}`] inside a template literal. *)
Definition interpolate (v : JsOptString) : string :=
  match v with
  | JsUndefined => "undefined"
  | JsNull => "null"
  | JsString s => s
  end.

(** [x || ''] on a string. *)
Definition orEmpty (x : string) : string := if nonEmpty x then x else "".

(** The double quote, a tab and a line feed, for markup literals. *)
Definition dq : string := String (ascii_of_nat 34) EmptyString.
Definition tab : string := String (ascii_of_nat 9) EmptyString.
Definition nl : string := String (ascii_of_nat 10) EmptyString.

(** [s.startsWith(p)]. *)
Definition startsWith (s p : string) : bool := String.prefix p s.

(** Upper-casing of an ASCII letter: the canonicalization a regular
    expression with the [i] flag applies to both sides. *)
Definition toUpper (c : ascii) : ascii :=
  let n := nat_of_ascii c in
  if (Nat.leb 97 n && Nat.leb n 122)%bool then ascii_of_nat (n - 32) else c.

Definition sameChar (a b : ascii) : bool := Ascii.eqb a b.
Definition sameCharIgnoreCase (a b : ascii) : bool :=
  Ascii.eqb (toUpper a) (toUpper b).

(** The literal [pat] matches the whole of [s], characters compared by [eqc]. *)
Fixpoint matchesBy (eqc : ascii -> ascii -> bool) (pat s : string) : bool :=
  match pat, s with
  | EmptyString, EmptyString => true
  | String a pat', String b s' => eqc a b && matchesBy eqc pat' s'
  | _, _ => false
  end.

(** [s.replace(/pat$/, '')] for a literal [pat]: the first start index from
    which [pat] matches up to the end of the input is cut off; no match
    leaves [s] as it is. *)
Fixpoint replaceAtEnd (eqc : ascii -> ascii -> bool) (pat s : string) : string :=
  if matchesBy eqc pat s then EmptyString
  else match s with
       | EmptyString => EmptyString
       | String c s' => String c (replaceAtEnd eqc pat s')
       end.

(** [/pat$/.test(s)]. *)
Fixpoint endsWithBy (eqc : ascii -> ascii -> bool) (pat s : string) : bool :=
  matchesBy eqc pat s ||
  match s with
  | EmptyString => false
  | String _ s' => endsWithBy eqc pat s'
  end.

(** [s.split('/')]: never empty, the empty string gives one empty part. *)
Fixpoint splitOn (sep : ascii) (s : string) : list string :=
  match s with
  | EmptyString => [EmptyString]
  | String c s' =>
      if Ascii.eqb c sep then EmptyString :: splitOn sep s'
      else match splitOn sep s' with
           | [] => [String c EmptyString]
           | part :: parts => String c part :: parts
           end
  end.

(** ** Path normalizer and named-route resolver *)

(** [pathToSubRoute(contentPath)], router.js lines 63-70. *)
Definition pathToSubRoute (contentPath : JsOptString) : string :=
  match contentPath with
  | JsString s =>
      if nonEmpty s then
        orEmpty
          (replaceAtEnd sameCharIgnoreCase "/readme"
             (replaceAtEnd sameCharIgnoreCase "/README"
                (replaceAtEnd sameChar ".html" s)))
      else ""
  | _ => ""
  end.

(** [pathToRoute(contentPath)], router.js lines 73-76. *)
Definition pathToRoute (contentPath : JsOptString) : string :=
  let sub := pathToSubRoute contentPath in
  "/notes" ++ sub.

(** The keys of [this.namedRoutes]. *)
Inductive NamedRouteName : Type := home | about | notes.

(** [resolveNamedRoute(path)], router.js lines 95-100; [None] is [null]. *)
Definition resolveNamedRoute (path : string) : option NamedRouteName :=
  if path =? "/" then Some home
  else if path =? "/about" then Some about
  else if (path =? "/notes") || startsWith path "/notes/" || startsWith path "/notes?"
       then Some notes
  else None.

Set Warnings "-register-all".

(** ** Data model *)

(** A manifest node: [{ title, type, content_path, children }], with [title]
    and [type] strings as the manifest gives them. An absent [children] is the
    empty list. *)
Inductive ManifestNode : Type :=
| Item (title : string) (type : string) (content_path : JsOptString)
       (children : list ManifestNode).

(** The value stored in [this.routes] under a route. *)
Module RouteData.
Record t : Type := mk {
  title : string;
  type : string;
  contentPath : JsOptString;
  parentPath : string;
  namedRoute : NamedRouteName
}.
End RouteData.

(** An element of [this.flatRoutes]. *)
Module FlatRoute.
Record t : Type := mk {
  route : string;
  title : string;
  type : string;
  contentPath : JsOptString
}.
End FlatRoute.

(** An entry of [this.namedRoutes]; its [render] is dispatched by name in
    [handleRoute]. *)
Module NamedRoute.
Record t : Type := mk {
  path : string;
  title : string;
  sidebar : bool
}.
End NamedRoute.

Definition namedRoutes (name : NamedRouteName) : NamedRoute.t :=
  match name with
  | home => NamedRoute.mk "/" "Home" false
  | about => NamedRoute.mk "/about" "About" false
  | notes => NamedRoute.mk "/notes" "Notes" true
  end.

(** The property name of a named route, as a [data-nav] attribute spells it. *)
Definition routeKey (name : NamedRouteName) : string :=
  match name with
  | home => "home"
  | about => "about"
  | notes => "notes"
  end.

(** *** Map with insertion order *)

Section InsertionOrderedMap.
Context {V : Type}.

(** [map.set(k, v)]: a key already present keeps its place. *)
Fixpoint mapSet (k : string) (v : V) (m : list (string * V)) : list (string * V) :=
  match m with
  | [] => [(k, v)]
  | (k', v') :: m' => if k' =? k then (k, v) :: m' else (k', v') :: mapSet k v m'
  end.

(** [map.get(k)]; [None] is [undefined]. *)
Fixpoint mapGet (k : string) (m : list (string * V)) : option V :=
  match m with
  | [] => None
  | (k', v') :: m' => if k' =? k then Some v' else mapGet k m'
  end.

(** The value a sequence of [set] calls leaves under [k], if one of them
    wrote [k]: the last one. *)
Definition lastWrite (k : string) (writes : list (string * V)) : option V :=
  fold_left (fun acc e => if fst e =? k then Some (snd e) else acc) writes None.

Definition applyWrites (writes : list (string * V)) (m : list (string * V))
  : list (string * V) :=
  fold_left (fun acc e => mapSet (fst e) (snd e) acc) writes m.

End InsertionOrderedMap.

(** *** The router object *)

Record Router : Type := mkRouter {
  routes : list (string * RouteData.t);
  flatRoutes : list FlatRoute.t;
  currentNamedRoute : option NamedRouteName
}.

(** [new Router()], router.js lines 3-33. *)
Definition newRouter : Router := mkRouter [] [] None.

Definition setRoutes (v : list (string * RouteData.t)) (r : Router) : Router :=
  mkRouter v (flatRoutes r) (currentNamedRoute r).
Definition setFlatRoutes (v : list FlatRoute.t) (r : Router) : Router :=
  mkRouter (routes r) v (currentNamedRoute r).
Definition setCurrentNamedRoute (v : option NamedRouteName) (r : Router) : Router :=
  mkRouter (routes r) (flatRoutes r) v.

(** The body of the [forEach] callback of [buildRoutes], router.js lines
    37-59, with the recursive call on the children inlined. The guard
    [item.children && item.children.length > 0] only skips a call that would
    do nothing: the fold over no children returns the router as it is. *)
Fixpoint buildRoutesItem (parentPath : string) (item : ManifestNode) (r : Router)
  : Router :=
  match item with
  | Item title type content_path children =>
      let subroute := pathToSubRoute content_path in
      let route := "/notes" ++ subroute in
      let r := setRoutes
                 (mapSet route
                    (RouteData.mk title type content_path parentPath notes)
                    (routes r)) r in
      let r := setFlatRoutes
                 ((flatRoutes r ++ [FlatRoute.mk route title type content_path])%list) r in
      fold_left (fun acc child => buildRoutesItem route child acc) children r
  end.

(** [buildRoutes(items, parentPath)], router.js lines 36-60. *)
Definition buildRoutes (items : list ManifestNode) (parentPath : string) (r : Router)
  : Router :=
  fold_left (fun acc item => buildRoutesItem parentPath item acc) items r.

(** [findMatchingRoute(route)], router.js lines 249-256. *)
Fixpoint findMatchingRoute (table : list (string * RouteData.t)) (route : string)
  : option string :=
  match table with
  | [] => None
  | (r, _) :: table' =>
      if startsWith r route || startsWith route r then Some r
      else findMatchingRoute table' route
  end.

(** *** The manifest in traversal order *)

(** Every node of the forest, depth first and parents before children, with
    the [parentPath] it is built under. *)
Fixpoint nodesOfItem (parentPath : string) (item : ManifestNode)
  : list (string * ManifestNode) :=
  match item with
  | Item _ _ content_path children =>
      (parentPath, item)
        :: flat_map (nodesOfItem ("/notes" ++ pathToSubRoute content_path)) children
  end.

Definition allNodes (parentPath : string) (items : list ManifestNode)
  : list (string * ManifestNode) :=
  flat_map (nodesOfItem parentPath) items.

Definition nodeContentPath (item : ManifestNode) : JsOptString :=
  match item with Item _ _ content_path _ => content_path end.

Definition nodeRoute (item : ManifestNode) : string :=
  "/notes" ++ pathToSubRoute (nodeContentPath item).

Definition nodeEntry (n : string * ManifestNode) : string * RouteData.t :=
  match snd n with
  | Item title type content_path _ =>
      ("/notes" ++ pathToSubRoute content_path,
       RouteData.mk title type content_path (fst n) notes)
  end.

Definition nodeFlat (n : string * ManifestNode) : FlatRoute.t :=
  match snd n with
  | Item title type content_path _ =>
      FlatRoute.mk ("/notes" ++ pathToSubRoute content_path) title type content_path
  end.

(** ** The page the router acts on *)

(** The class and the inline [display] styles [applyLayout] writes:
    [homePage] is the presence of [home-page] in the class list of [#app],
    the strings are [style.display] of [#sidebar], [#menu-toggle], [#overlay]
    and [#breadcrumb]. *)
Record Chrome : Type := mkChrome {
  homePage : bool;
  sidebarDisplay : string;
  menuToggleDisplay : string;
  overlayDisplay : string;
  breadcrumbDisplay : string
}.

Definition setHomePage (v : bool) (c : Chrome) : Chrome :=
  mkChrome v (sidebarDisplay c) (menuToggleDisplay c) (overlayDisplay c)
    (breadcrumbDisplay c).
Definition setSidebarDisplay (v : string) (c : Chrome) : Chrome :=
  mkChrome (homePage c) v (menuToggleDisplay c) (overlayDisplay c)
    (breadcrumbDisplay c).
Definition setMenuToggleDisplay (v : string) (c : Chrome) : Chrome :=
  mkChrome (homePage c) (sidebarDisplay c) v (overlayDisplay c)
    (breadcrumbDisplay c).
Definition setOverlayDisplay (v : string) (c : Chrome) : Chrome :=
  mkChrome (homePage c) (sidebarDisplay c) (menuToggleDisplay c) v
    (breadcrumbDisplay c).
Definition setBreadcrumbDisplay (v : string) (c : Chrome) : Chrome :=
  mkChrome (homePage c) (sidebarDisplay c) (menuToggleDisplay c)
    (overlayDisplay c) v.

(** A [.nav-link] element: its [data-nav] attribute and whether its class
    list holds [active]. *)
Record NavLink : Type := mkNavLink {
  nav : string;
  navActive : bool
}.

(** A [.tree-item] of the sidebar as [buildFileTree] lays it out: the
    [a.tree-link] with its [href], whether the link is [active], whether its
    [.arrow] is [expanded], whether the [div.children] that follows the link
    is [open], and the items inside that div. *)
Inductive TreeItem : Type :=
| TreeLink (href : string) (active : bool) (expanded : bool) (open : bool)
           (items : list TreeItem).

(** A call made on [window.history]. *)
Inductive HistoryCall : Type :=
| PushState (url : string)
| ReplaceState (url : string).

Record Page : Type := mkPage {
  router : Router;
  pathname : string;                  (* window.location.pathname *)
  historyCalls : list HistoryCall;    (* most recent first *)
  chrome : Chrome;
  navLinks : list NavLink;
  treeItems : list TreeItem;          (* document order *)
  contentBody : string;               (* #content-body innerHTML *)
  breadcrumbHtml : string;            (* #breadcrumb innerHTML *)
  documentTitle : string
}.

Definition setRouter (v : Router) (p : Page) : Page :=
  mkPage v (pathname p) (historyCalls p) (chrome p) (navLinks p) (treeItems p)
    (contentBody p) (breadcrumbHtml p) (documentTitle p).
Definition setLocation (url : string) (call : HistoryCall) (p : Page) : Page :=
  mkPage (router p) url (call :: historyCalls p) (chrome p) (navLinks p)
    (treeItems p) (contentBody p) (breadcrumbHtml p) (documentTitle p).
Definition setChrome (v : Chrome) (p : Page) : Page :=
  mkPage (router p) (pathname p) (historyCalls p) v (navLinks p) (treeItems p)
    (contentBody p) (breadcrumbHtml p) (documentTitle p).
Definition setNavLinks (v : list NavLink) (p : Page) : Page :=
  mkPage (router p) (pathname p) (historyCalls p) (chrome p) v (treeItems p)
    (contentBody p) (breadcrumbHtml p) (documentTitle p).
Definition setTreeItems (v : list TreeItem) (p : Page) : Page :=
  mkPage (router p) (pathname p) (historyCalls p) (chrome p) (navLinks p) v
    (contentBody p) (breadcrumbHtml p) (documentTitle p).
Definition setContentBody (v : string) (p : Page) : Page :=
  mkPage (router p) (pathname p) (historyCalls p) (chrome p) (navLinks p)
    (treeItems p) v (breadcrumbHtml p) (documentTitle p).
Definition setBreadcrumbHtml (v : string) (p : Page) : Page :=
  mkPage (router p) (pathname p) (historyCalls p) (chrome p) (navLinks p)
    (treeItems p) (contentBody p) v (documentTitle p).
Definition setDocumentTitle (v : string) (p : Page) : Page :=
  mkPage (router p) (pathname p) (historyCalls p) (chrome p) (navLinks p)
    (treeItems p) (contentBody p) (breadcrumbHtml p) v.

(** ** Layout and top navigation *)

(** [namedRoute?.sidebar ?? false] for
    [namedRoute = namedRouteName ? this.namedRoutes[namedRouteName] : null]. *)
Definition showsSidebar (namedRouteName : option NamedRouteName) : bool :=
  let namedRoute := option_map namedRoutes namedRouteName in
  match namedRoute with
  | Some r => NamedRoute.sidebar r
  | None => false
  end.

(** [applyLayout(namedRouteName)], router.js lines 157-182. *)
Definition applyLayout (namedRouteName : option NamedRouteName) (p : Page) : Page :=
  let showSidebar := showsSidebar namedRouteName in
  let c := chrome p in
  let c :=
    if showSidebar then
      setBreadcrumbDisplay ""
        (setOverlayDisplay ""
           (setMenuToggleDisplay ""
              (setSidebarDisplay "" (setHomePage false c))))
    else
      setBreadcrumbDisplay "none"
        (setOverlayDisplay "none"
           (setMenuToggleDisplay "none"
              (setSidebarDisplay "none" (setHomePage true c)))) in
  setRouter (setCurrentNamedRoute namedRouteName (router p)) (setChrome c p).

(** [nav === namedRouteName]: [null] equals no attribute value. *)
Definition navIs (namedRouteName : option NamedRouteName) (v : string) : bool :=
  match namedRouteName with
  | Some name => v =? routeKey name
  | None => false
  end.

(** [updateTopNav(namedRouteName)], router.js lines 185-190. *)
Definition updateTopNav (namedRouteName : option NamedRouteName) (p : Page) : Page :=
  setNavLinks
    (map (fun link => mkNavLink (nav link) (navIs namedRouteName (nav link)))
       (navLinks p))
    p.

(** ** Static pages *)

Fixpoint tabs (n : nat) : string :=
  match n with
  | O => EmptyString
  | S n' => tab ++ tabs n'
  end.

Definition homeMarkup : string :=
  nl
  ++ tabs 3 ++ "<div class=" ++ dq ++ "home-hero" ++ dq ++ ">" ++ nl
  ++ tabs 4 ++ "<h1>Welcome Home</h1>" ++ nl
  ++ tabs 4 ++ "<p>This is the home page of Doc.</p>" ++ nl
  ++ tabs 3 ++ "</div>" ++ nl
  ++ tabs 2.

Definition aboutMarkup : string :=
  nl
  ++ tabs 3 ++ "<div class=" ++ dq ++ "home-hero" ++ dq ++ ">" ++ nl
  ++ tabs 4 ++ "<h1>About</h1>" ++ nl
  ++ tabs 4 ++ "<p>Doc. is a lightweight, file-explorer-style documentation viewer built with vanilla HTML, CSS, and JavaScript — no frameworks, no build tools.</p>" ++ nl
  ++ tabs 4 ++ nl
  ++ tabs 4 ++ "<h2>Features</h2>" ++ nl
  ++ tabs 4 ++ "<ul>" ++ nl
  ++ tabs 5 ++ "<li><strong>SPA Routing</strong> — History API-based navigation with clean URLs</li>" ++ nl
  ++ tabs 5 ++ "<li><strong>File Tree Sidebar</strong> — Expandable folder/file explorer for browsing notes</li>" ++ nl
  ++ tabs 5 ++ "<li><strong>Mobile Friendly</strong> — Responsive layout with slide-out menu</li>" ++ nl
  ++ tabs 5 ++ "<li><strong>Manifest Driven</strong> — Content structure defined in a single JSON file</li>" ++ nl
  ++ tabs 5 ++ "<li><strong>Static Hosting</strong> — Deploys to Cloudflare Pages with zero config</li>" ++ nl
  ++ tabs 4 ++ "</ul>" ++ nl
  ++ tabs 4 ++ nl
  ++ tabs 4 ++ "<h2>Tech Stack</h2>" ++ nl
  ++ tabs 4 ++ "<ul>" ++ nl
  ++ tabs 5 ++ "<li>HTML5 &amp; CSS3</li>" ++ nl
  ++ tabs 5 ++ "<li>Vanilla JavaScript (ES Modules)</li>" ++ nl
  ++ tabs 5 ++ "<li>Cloudflare Pages</li>" ++ nl
  ++ tabs 4 ++ "</ul>" ++ nl
  ++ tabs 4 ++ nl
  ++ tabs 4 ++ "<h2>How It Works</h2>" ++ nl
  ++ tabs 4 ++ "<p>Content is stored as plain HTML files in the <code>content-store/</code> directory. A <code>manifest.json</code> file describes the folder structure, which the app reads at startup to build the sidebar tree and register routes.</p>" ++ nl
  ++ tabs 4 ++ "<p>When you click a link, the SPA router intercepts it, updates the URL via the History API, and fetches the corresponding HTML fragment — no full page reloads.</p>" ++ nl
  ++ tabs 4 ++ nl
  ++ tabs 3 ++ "</div>" ++ nl
  ++ tabs 2.

(** [renderHome()], router.js lines 193-201. *)
Definition renderHome (p : Page) : Page := setContentBody homeMarkup p.

(** [renderAbout()], router.js lines 204-233. *)
Definition renderAbout (p : Page) : Page := setContentBody aboutMarkup p.

Definition homeLink : string :=
  "<a href=" ++ dq ++ "/" ++ dq ++ " data-link>Home</a>".

Definition notFoundMarkup : string :=
  "<h1>404</h1><p>Page not found. <a href=" ++ dq ++ "/" ++ dq
  ++ " data-link>Go home</a></p>".

Definition notFoundBreadcrumb : string := homeLink ++ " <span>/</span> 404".

(** [show404()], router.js lines 301-305. *)
Definition show404 (p : Page) : Page :=
  setBreadcrumbHtml notFoundBreadcrumb (setContentBody notFoundMarkup p).

(** ** Sidebar and breadcrumb *)

(** The [forEach] of [updateActiveNav]: [active] is on exactly the links
    whose [href] is the route. *)
Fixpoint toggleActive (route : string) (item : TreeItem) : TreeItem :=
  match item with
  | TreeLink href _ expanded open items =>
      TreeLink href (href =? route) expanded open (map (toggleActive route) items)
  end.

(** Rewrites the first element [f] accepts, in list order. *)
Definition firstHit {A : Type} (f : A -> option A) : list A -> option (list A) :=
  fix go (l : list A) : option (list A) :=
    match l with
    | [] => None
    | x :: l' =>
        match f x with
        | Some x' => Some (x' :: l')
        | None =>
            match go l' with
            | Some l'' => Some (x :: l'')
            | None => None
            end
        end
    end.

(** The walk from [document.querySelector] up through [closest('.children')]:
    for the first link in document order whose [href] is the route, every
    enclosing [div.children] gets [open] and the arrow of the link before it
    gets [expanded]. [None] when no link of the item has that [href]. *)
Fixpoint expandAncestors (route : string) (item : TreeItem) : option TreeItem :=
  match item with
  | TreeLink href active expanded open items =>
      if href =? route then Some item
      else match firstHit (expandAncestors route) items with
           | Some items' => Some (TreeLink href active true true items')
           | None => None
           end
  end.

(** [updateActiveNav(route)], router.js lines 259-276. *)
Definition updateActiveNav (route : string) (p : Page) : Page :=
  let items := map (toggleActive route) (treeItems p) in
  let items :=
    match firstHit (expandAncestors route) items with
    | Some items' => items'
    | None => items
    end in
  setTreeItems items p.

(** [route.split('/').filter(Boolean)]. *)
Definition breadcrumbParts (route : string) : list string :=
  filter nonEmpty (splitOn "/" route).

(** One round of the [forEach] of [updateBreadcrumb] on its three variables
    [html], [currentPath] and the index [i]. *)
Definition breadcrumbStep (parts : list string) (title : string)
    (acc : string * string * nat) (part : string) : string * string * nat :=
  let '(html, currentPath, i) := acc in
  let currentPath := currentPath ++ "/" ++ part in
  let isLast := Nat.eqb i (List.length parts - 1) in
  let html := html ++ "<span>/</span>" in
  let html :=
    if isLast then html ++ title
    else html ++ "<a href=" ++ dq ++ currentPath ++ dq ++ " data-link>" ++ part ++ "</a>" in
  (html, currentPath, S i).

Definition breadcrumbMarkup (route : string) (routeData : RouteData.t) : string :=
  let parts := breadcrumbParts route in
  fst (fst (fold_left (breadcrumbStep parts (RouteData.title routeData)) parts
              (homeLink, EmptyString, 0))).

(** [updateBreadcrumb(route, routeData)], router.js lines 279-298. *)
Definition updateBreadcrumb (route : string) (routeData : RouteData.t) (p : Page)
  : Page :=
  setBreadcrumbHtml (breadcrumbMarkup route routeData) p.

(** The pieces the breadcrumb markup is made of. *)
Inductive Crumb : Type :=
| CrumbLink (href label : string)
| CrumbSeparator
| CrumbText (text : string).

Definition crumbMarkup (c : Crumb) : string :=
  match c with
  | CrumbLink href label =>
      "<a href=" ++ dq ++ href ++ dq ++ " data-link>" ++ label ++ "</a>"
  | CrumbSeparator => "<span>/</span>"
  | CrumbText text => text
  end.

Definition crumbsMarkup (cs : list Crumb) : string :=
  fold_right (fun c rest => crumbMarkup c ++ rest) EmptyString cs.

(** [breadcrumbStep] on the list of pieces instead of their markup. *)
Definition crumbStep (parts : list string) (title : string)
    (acc : list Crumb * string * nat) (part : string) : list Crumb * string * nat :=
  let '(crumbs, currentPath, i) := acc in
  let currentPath := currentPath ++ "/" ++ part in
  let isLast := Nat.eqb i (List.length parts - 1) in
  let crumbs := (crumbs ++ [CrumbSeparator])%list in
  let crumbs :=
    if isLast then (crumbs ++ [CrumbText title])%list
    else (crumbs ++ [CrumbLink currentPath part])%list in
  (crumbs, currentPath, S i).

Definition breadcrumbCrumbs (route : string) (routeData : RouteData.t) : list Crumb :=
  let parts := breadcrumbParts route in
  fst (fst (fold_left (crumbStep parts (RouteData.title routeData)) parts
              ([CrumbLink "/" "Home"], EmptyString, 0))).

Definition isSeparator (c : Crumb) : bool :=
  match c with
  | CrumbSeparator => true
  | _ => false
  end.

(** The link and text segments of a breadcrumb, separators left out. *)
Definition linkTextSegments (cs : list Crumb) : list Crumb :=
  filter (fun c => negb (isSeparator c)) cs.

(** ** Content loader and navigation *)

(** What [fetch(url)] and [response.text()] come to: the request is rejected
    (transport error), or a response arrives with its [ok] flag and a body
    that reads as text or fails to. *)
Inductive FetchOutcome : Type :=
| FetchRejected
| FetchResponse (ok : bool) (text : option string).

(** How a block of statements ends. *)
Inductive Completion (A : Type) : Type :=
| Normal (a : A)
| Throw (error : string).
Arguments Normal {A} a.
Arguments Throw {A} error.

(** [try { body } catch (error) { handler }]. *)
Definition tryCatch {A : Type} (body : Completion A) (handler : string -> Completion A)
  : Completion A :=
  match body with
  | Normal a => Normal a
  | Throw error => handler error
  end.

(** How a call of [handleRoute] ends: it settles on a page, an exception
    leaves it, or the passes allowed were used up. *)
Inductive Outcome : Type :=
| Finished (p : Page)
| Uncaught (error : string)
| OutOfFuel.

Definition contentUrl (routeData : RouteData.t) : string :=
  "/content-store" ++ interpolate (RouteData.contentPath routeData).

Definition loadErrorMarkup (routeData : RouteData.t) : string :=
  "<p>Error loading: " ++ interpolate (RouteData.contentPath routeData) ++ "</p>".

(** [navigate(route, replace)], router.js lines 79-86, over the handler it
    re-enters. *)
Definition navigate (handleRoute : Page -> Outcome) (route : string) (replace : bool)
    (p : Page) : Outcome :=
  let p :=
    if replace then setLocation route (ReplaceState route) p
    else setLocation route (PushState route) p in
  handleRoute p.

(** [getCurrentRoute()], router.js lines 89-92. *)
Definition getCurrentRoute (p : Page) : string :=
  let path := pathname p in
  if nonEmpty path then path else "/".

Section Navigation.

(** The network: what a request for a URL comes to. *)
Variable fetch : string -> FetchOutcome.

(** [renderNotes(routeData)], router.js lines 236-246. *)
Definition renderNotes (routeData : RouteData.t) (p : Page) : Completion Page :=
  tryCatch
    (match fetch (contentUrl routeData) with
     | FetchRejected => Throw "TypeError: Failed to fetch"
     | FetchResponse ok text =>
         if negb ok then Throw "Not found"
         else match text with
              | Some body => Normal (setContentBody body p)
              | None => Throw "TypeError: Failed to read the body"
              end
     end)
    (fun _ => Normal (setContentBody (loadErrorMarkup routeData) p)).

(** [handleRoute()], router.js lines 103-154. *)
Fixpoint handleRoute (fuel : nat) (p : Page) : Outcome :=
  match fuel with
  | O => OutOfFuel
  | S fuel' =>
      let route := getCurrentRoute p in
      let namedRouteName := resolveNamedRoute route in
      let p := applyLayout namedRouteName p in
      let p := updateTopNav namedRouteName p in
      match namedRouteName with
      | Some home => Finished (setDocumentTitle "Home - Doc." (renderHome p))
      | Some about => Finished (setDocumentTitle "About - Doc." (renderAbout p))
      | Some notes =>
          let routeData := mapGet route (routes (router p)) in
          let firstRoute :=
            match routeData with
            | None => if route =? "/notes" then hd_error (flatRoutes (router p)) else None
            | Some _ => None
            end in
          match firstRoute with
          | Some firstRoute =>
              navigate (handleRoute fuel') (FlatRoute.route firstRoute) true p
          | None =>
              match routeData with
              | Some routeData =>
                  match renderNotes routeData p with
                  | Normal p =>
                      let p := updateActiveNav route p in
                      let p := updateBreadcrumb route routeData p in
                      Finished
                        (setDocumentTitle (RouteData.title routeData ++ " - Doc.") p)
                  | Throw error => Uncaught error
                  end
              | None =>
                  match findMatchingRoute (routes (router p)) route with
                  | Some matchedRoute =>
                      if nonEmpty matchedRoute
                      then navigate (handleRoute fuel') matchedRoute true p
                      else Finished (show404 p)
                  | None => Finished (show404 p)
                  end
              end
          end
      | None => Finished (show404 p)
      end
  end.

End Navigation.

(** ** Auxiliary definitions for the statements *)

(** A string with its ASCII letters in upper case. *)
Fixpoint upperString (s : string) : string :=
  match s with
  | EmptyString => EmptyString
  | String c s' => String (toUpper c) (upperString s')
  end.

Section WriteSequences.
Context {V : Type}.

(** The writes of a sequence that go to other keys than [k]. *)
Definition dropKey (k : string) (writes : list (string * V)) : list (string * V) :=
  filter (fun e => negb (fst e =? k)) writes.

(** The value under [k] after the writes, [d] being there before them. *)
Definition lastOr (d : V) (k : string) (writes : list (string * V)) : V :=
  fold_left (fun acc e => if fst e =? k then snd e else acc) writes d.

End WriteSequences.

(** The four chrome elements are hidden ([display: none]), resp. all carry
    the same inline [display]. *)
Definition chromeHidden (c : Chrome) : Prop :=
  sidebarDisplay c = "none" /\ menuToggleDisplay c = "none"
  /\ overlayDisplay c = "none" /\ breadcrumbDisplay c = "none".

Definition sameVisibility (c : Chrome) : Prop :=
  sidebarDisplay c = menuToggleDisplay c
  /\ menuToggleDisplay c = overlayDisplay c
  /\ overlayDisplay c = breadcrumbDisplay c.

(** The four elements agree, and the [home-page] class is on [#app] exactly
    when they are hidden. *)
Definition chromeConsistent (c : Chrome) : Prop :=
  sameVisibility c /\ (homePage c = true <-> chromeHidden c).

(** Layout applied for one named route after another. *)
Definition applyLayouts (names : list (option NamedRouteName)) (p : Page) : Page :=
  fold_left (fun q name => applyLayout name q) names p.

(** Whether a request came to nothing the loader can show: it was rejected,
    answered with a non-success status, or its body could not be read. *)
Definition fetchFailed (o : FetchOutcome) : bool :=
  match o with
  | FetchResponse true (Some _) => false
  | _ => true
  end.

(** What [renderNotes] leaves in the content region. *)
Definition contentFor (fetch : string -> FetchOutcome) (routeData : RouteData.t)
  : string :=
  match fetch (contentUrl routeData) with
  | FetchResponse true (Some body) => body
  | _ => loadErrorMarkup routeData
  end.

(** The page after the first two statements of a pass of [handleRoute]:
    layout and top navigation set for the named route of the current path. *)
Definition laidOut (p : Page) : Page :=
  let namedRouteName := resolveNamedRoute (getCurrentRoute p) in
  updateTopNav namedRouteName (applyLayout namedRouteName p).

(** The page after [handleRoute] has rendered [routeData] for [route]:
    content region, active links, breadcrumb, title. *)
Definition routeShown (fetch : string -> FetchOutcome) (route : string)
    (routeData : RouteData.t) (p : Page) : Page :=
  setDocumentTitle (RouteData.title routeData ++ " - Doc.")
    (updateBreadcrumb route routeData
       (updateActiveNav route (setContentBody (contentFor fetch routeData) p))).

(** The page after a redirect has written the URL with [replaceState]. *)
Definition redirected (route : string) (p : Page) : Page :=
  setLocation route (ReplaceState route) p.

(** The router of the page holds the table and the flat list that
    [buildRoutes(manifest.root)] makes on a new router. *)
Definition builtFrom (items : list ManifestNode) (p : Page) : Prop :=
  routes (router p) = routes (buildRoutes items "" newRouter)
  /\ flatRoutes (router p) = flatRoutes (buildRoutes items "" newRouter).

(** ** Sample manifests, pages and networks *)

(** The manifest of the end-to-end scenario. *)
Definition natureManifest : list ManifestNode :=
  [Item "Nature" "directory" (JsString "/nature/README.html")
     [Item "Trees" "file" (JsString "/nature/trees.html") []]].


(** A folder without a content path. *)
Definition draftsManifest : list ManifestNode :=
  [Item "Drafts" "directory" JsNull
     [Item "Trees" "file" (JsString "/nature/trees.html") []]].


(** A network that serves every URL with a heading naming it, and one on
    which every request is rejected. *)
Definition echoFetch (url : string) : FetchOutcome :=
  FetchResponse true (Some ("<h1>" ++ url ++ "</h1>")).

Definition offlineFetch (url : string) : FetchOutcome := FetchRejected.

(** The page at [path] right after boot: routes built, sidebar drawn for the
    nature manifest, the index document's static markup otherwise. *)
Definition bootPage (items : list ManifestNode) (path : string) : Page :=
  mkPage (buildRoutes items "" newRouter) path []
    (mkChrome false "" "" "" "")
    [mkNavLink "home" false; mkNavLink "about" false; mkNavLink "notes" false]
    [TreeLink "/notes/nature" false false false
       [TreeLink "/notes/nature/trees" false false false []]]
    "<p>Loading...</p>" EmptyString "Doc.".

(** What building one node, or a list of nodes, does to the router: the
    table takes the nodes' entries as writes in traversal order, the flat list
    takes their flat entries at its end, the current named route stays. *)
Definition BuildsAs (nodes : list (string * ManifestNode)) (r r' : Router) : Prop :=
  routes r' = applyWrites (map nodeEntry nodes) (routes r)
  /\ flatRoutes r' = (flatRoutes r ++ map nodeFlat nodes)%list
  /\ currentNamedRoute r' = currentNamedRoute r.

(** ** The passes of the route handler, as relations *)

(** A pass of [handleRoute] on [q] that ends without [navigate]: the page it
    leaves. *)
Inductive Settles (fetch : string -> FetchOutcome) : Page -> Page -> Prop :=
| SettlesHome (q : Page) :
    resolveNamedRoute (getCurrentRoute q) = Some home ->
    Settles fetch q (setDocumentTitle "Home - Doc." (renderHome (laidOut q)))
| SettlesAbout (q : Page) :
    resolveNamedRoute (getCurrentRoute q) = Some about ->
    Settles fetch q (setDocumentTitle "About - Doc." (renderAbout (laidOut q)))
| SettlesFound (q : Page) (routeData : RouteData.t) :
    resolveNamedRoute (getCurrentRoute q) = Some notes ->
    mapGet (getCurrentRoute q) (routes (router q)) = Some routeData ->
    Settles fetch q (routeShown fetch (getCurrentRoute q) routeData (laidOut q))
| SettlesNotFound (q : Page) :
    resolveNamedRoute (getCurrentRoute q) = None
    \/ (resolveNamedRoute (getCurrentRoute q) = Some notes
        /\ mapGet (getCurrentRoute q) (routes (router q)) = None
        /\ (getCurrentRoute q <> "/notes" \/ flatRoutes (router q) = [])
        /\ forall m,
            findMatchingRoute (routes (router q)) (getCurrentRoute q) = Some m ->
            nonEmpty m = false) ->
    Settles fetch q (show404 (laidOut q)).

(** A pass of [handleRoute] on [q] that ends in [navigate(r, true)]: to the
    first flat route from the bare section root, or to the fallback match. *)
Inductive Redirects : Page -> string -> Prop :=
| RedirectsFirst (q : Page) (firstRoute : FlatRoute.t) (others : list FlatRoute.t) :
    getCurrentRoute q = "/notes" ->
    mapGet "/notes" (routes (router q)) = None ->
    flatRoutes (router q) = firstRoute :: others ->
    Redirects q (FlatRoute.route firstRoute)
| RedirectsFallback (q : Page) (r : string) :
    resolveNamedRoute (getCurrentRoute q) = Some notes ->
    mapGet (getCurrentRoute q) (routes (router q)) = None ->
    getCurrentRoute q <> "/notes" \/ flatRoutes (router q) = [] ->
    findMatchingRoute (routes (router q)) (getCurrentRoute q) = Some r ->
    nonEmpty r = true ->
    Redirects q r.

(** The pages a call of [handleRoute] on [p] passes through by redirects. *)
Inductive RedirectsTo : Page -> Page -> Prop :=
| RedirectsToHere (p : Page) : RedirectsTo p p
| RedirectsToNext (p q : Page) (r : string) :
    Redirects p r -> RedirectsTo (redirected r (laidOut p)) q -> RedirectsTo p q.

(** The top navigation with [active] on the links of one named route. *)
Definition topNavFor (namedRouteName : option NamedRouteName) (links : list NavLink)
  : list NavLink :=
  map (fun link => mkNavLink (nav link) (navIs namedRouteName (nav link))) links.

(** The chrome [applyLayout] leaves for a named route. *)
Definition chromeFor (namedRouteName : option NamedRouteName) : Chrome :=
  if showsSidebar namedRouteName then mkChrome false "" "" "" ""
  else mkChrome true "none" "none" "none" "none".

(** ** The sidebar, link by link *)

(** The links of an item in document order, each with its [href] and whether
    it is [active]. *)
Fixpoint itemLinks (item : TreeItem) : list (string * bool) :=
  match item with
  | TreeLink href active _ _ items => (href, active) :: flat_map itemLinks items
  end.

Definition forestLinks (forest : list TreeItem) : list (string * bool) :=
  flat_map itemLinks forest.

(** The place of a link in the sidebar: the index of a top-level item, then
    the index among that item's children, and so on down to the item of the
    link. *)
Definition shiftPath (path : list nat) : list nat :=
  match path with
  | [] => []
  | i :: rest => S i :: rest
  end.

(** The first element on which [f] finds a path, with the element's index
    put before the path. *)
Definition firstPath {A : Type} (f : A -> option (list nat))
  : list A -> option (list nat) :=
  fix go (l : list A) : option (list nat) :=
    match l with
    | [] => None
    | x :: l' =>
        match f x with
        | Some path => Some (0 :: path)
        | None => option_map shiftPath (go l')
        end
    end.

(** [querySelector('.tree-link[href=...]')] inside one item: the path from
    the item to the first link in document order with that [href]; the empty
    path is the item's own link. *)
Fixpoint linkPath (route : string) (item : TreeItem) : option (list nat) :=
  match item with
  | TreeLink href _ _ _ items =>
      if href =? route then Some [] else firstPath (linkPath route) items
  end.

(** [document.querySelector('.tree-link[href=...]')] on the sidebar. *)
Definition querySelectorTreeLink (route : string) (forest : list TreeItem)
  : option (list nat) :=
  firstPath (linkPath route) forest.

Fixpoint updateNth {A : Type} (i : nat) (f : A -> A) (l : list A) : list A :=
  match l, i with
  | [], _ => []
  | x :: l', O => f x :: l'
  | x :: l', S i' => x :: updateNth i' f l'
  end.

(** The loop over [closest('.children')]: every item the path goes through
    before it reaches the link gets [open] on its [div.children] and
    [expanded] on its arrow. *)
Fixpoint openAlong (path : list nat) (item : TreeItem) : TreeItem :=
  match path, item with
  | [], _ => item
  | i :: rest, TreeLink href active _ _ items =>
      TreeLink href active true true (updateNth i (openAlong rest) items)
  end.

Definition openAncestors (path : list nat) (forest : list TreeItem) : list TreeItem :=
  match path with
  | [] => forest
  | i :: rest => updateNth i (openAlong rest) forest
  end.

(** [updateActiveNav] in the two steps of the source: toggle [active] on
    every link, then look the active link up and open what encloses it. *)
Definition updateActiveNavInTwoSteps (route : string) (forest : list TreeItem)
  : list TreeItem :=
  let toggled := map (toggleActive route) forest in
  match querySelectorTreeLink route toggled with
  | Some path => openAncestors path toggled
  | None => toggled
  end.

(** What [updateActiveNav] makes of the sidebar. *)
Definition activeNavItems (route : string) (forest : list TreeItem) : list TreeItem :=
  treeItems
    (updateActiveNav route
       (mkPage newRouter EmptyString [] (mkChrome false "" "" "" "") [] forest
          EmptyString EmptyString EmptyString)).

(** [currentPath] of [updateBreadcrumb] after the given parts. *)
Definition cumulativePath (parts : list string) : string :=
  fold_left (fun currentPath part => currentPath ++ "/" ++ part) parts EmptyString.

(** The two pieces [updateBreadcrumb] adds for the part with index [i]. *)
Definition crumbsOfPart (parts : list string) (title : string) (i : nat) : list Crumb :=
  [CrumbSeparator;
   if Nat.eqb i (List.length parts - 1) then CrumbText title
   else CrumbLink (cumulativePath (firstn (S i) parts)) (nth i parts EmptyString)].


(** [r.startsWith(route) || route.startsWith(r)], the test of
    [findMatchingRoute]. *)
Definition prefixRelated (r route : string) : bool :=
  startsWith r route || startsWith route r.

(** ** The sidebar markup (src/unnamed/part_000) *)

From Stdlib Require Import DecimalString.

Definition arrowSVG : string :=
  "<svg viewBox=" ++ dq ++ "0 0 24 24" ++ dq ++ "><path d=" ++ dq
  ++ "M8.59 16.59L13.17 12 8.59 7.41 10 6l6 6-6 6z" ++ dq ++ "/></svg>".

(** [`${n}`] for a non-negative integer and for a boolean. *)
Definition decimal (n : nat) : string := NilEmpty.string_of_uint (Nat.to_uint n).
Definition boolText (b : bool) : string := if b then "true" else "false".



(** Markup as a tree: elements with their attributes (a name, and a value
    unless the attribute is bare) and their content, and text in between. *)
Inductive Html : Type :=
| Element (tag : string) (attributes : list (string * option string))
          (content : list Html)
| Text (raw : string).





(** The tree the template of [buildFileTree] writes down for one item. *)
Fixpoint fileTreeItemDom (depth : nat) (item : ManifestNode) : list Html :=
  match item with
  | Item title type content_path children =>
      let route := pathToRoute content_path in
      let isDir := type =? "directory" in
      let hasChildren := Nat.ltb 0 (List.length children) in
      let arrowClasses := "arrow " ++ if hasChildren then EmptyString else "hidden" in
      let iconClasses := "icon " ++ if isDir then "folder" else "file" in
      let link :=
        Element "a"
          [("class", Some "tree-link"); ("href", Some route); ("data-link", None);
           ("data-has-children", Some (boolText hasChildren))]
          [Text (nl ++ tabs 5);
           Element "span" [("class", Some arrowClasses)] [Text arrowSVG];
           Text (nl ++ tabs 5);
           Element "span" [("class", Some iconClasses)]
             [Text (if isDir then "📁" else "📄")];
           Text (nl ++ tabs 5);
           Element "span" [("class", Some "name")] [Text title];
           Text (nl ++ tabs 4)] in
      let childrenDiv :=
        if hasChildren
        then [Element "div" [("class", Some "children")]
                (flat_map (fileTreeItemDom (S depth)) children)]
        else [] in
      [Text (nl ++ tabs 3);
       Element "div"
         [("class", Some "tree-item"); ("data-depth", Some (decimal depth));
          ("data-type", Some type)]
         (List.app [Text (nl ++ tabs 4); link; Text (nl ++ tabs 4)]
            (List.app childrenDiv [Text (nl ++ tabs 3)]));
       Text (nl ++ tabs 2)]
  end.

Definition fileTreeDom (items : list ManifestNode) (depth : nat) : list Html :=
  flat_map (fileTreeItemDom depth) items.

(** The value of an attribute; the classes of an element. *)
Fixpoint attribute (name : string) (attributes : list (string * option string))
  : option string :=
  match attributes with
  | [] => None
  | (n, v) :: rest =>
      if n =? name
      then match v with Some s => Some s | None => Some EmptyString end
      else attribute name rest
  end.

Definition hasClass (c : string) (attributes : list (string * option string)) : bool :=
  match attribute "class" attributes with
  | Some v => existsb (String.eqb c) (filter nonEmpty (splitOn " " v))
  | None => false
  end.

(** [querySelectorAll('.tree-link')] followed by [getAttribute('href')]: the
    [href] of every element of class [tree-link], in document order. *)
Fixpoint treeLinkHrefs (h : Html) : list string :=
  match h with
  | Text _ => []
  | Element _ attributes content =>
      List.app
        (if hasClass "tree-link" attributes
         then match attribute "href" attributes with
              | Some v => [v]
              | None => []
              end
         else [])
        (flat_map treeLinkHrefs content)
  end.

(** The sidebar of the page model right after the tree is drawn: nothing
    active, nothing open. *)
Fixpoint sidebarItem (item : ManifestNode) : TreeItem :=
  match item with
  | Item _ _ content_path children =>
      TreeLink (pathToRoute content_path) false false false (map sidebarItem children)
  end.

(** ** Mobile menu and folder toggles (src/app.js) *)

(** The three classes [setupMobileMenu] switches: [active] on [#menu-toggle],
    [open] on [#sidebar], [active] on [#overlay]. *)
Record Menu : Type := mkMenu {
  toggleIsActive : bool;
  sidebarIsOpen : bool;
  overlayIsActive : bool
}.

(** The click listener of [#menu-toggle], app.js lines 199-203. *)
Definition clickMenuToggle (m : Menu) : Menu :=
  mkMenu (negb (toggleIsActive m)) (negb (sidebarIsOpen m)) (negb (overlayIsActive m)).

(** [closeMenu()], app.js lines 193-197. *)
Definition closeMenu (m : Menu) : Menu := mkMenu false false false.

(** What happens to the menu: a click on the toggle, a click on the overlay,
    or a click on a [data-link] anchor in a window of the given width (app.js
    line 238). *)
Inductive MenuEvent : Type :=
| ToggleClicked
| OverlayClicked
| LinkClicked (innerWidth : nat).

Definition menuAfter (m : Menu) (e : MenuEvent) : Menu :=
  match e with
  | ToggleClicked => clickMenuToggle m
  | OverlayClicked => closeMenu m
  | LinkClicked innerWidth => if Nat.leb innerWidth 768 then closeMenu m else m
  end.

Definition menuInSync (m : Menu) : Prop :=
  toggleIsActive m = sidebarIsOpen m /\ sidebarIsOpen m = overlayIsActive m.



(** ** The router of src/app.js *)

(** The single-section router that [init] of app.js drives: no named routes,
    no layout, routes without the [/notes] prefix. *)
Module Legacy.

(** The value stored in [this.routes] under a route. *)
Record RouteData : Type := mkRouteData {
  title : string;
  type : string;
  contentPath : JsOptString;
  parentPath : string
}.

Record Router : Type := mkRouter {
  routes : list (string * RouteData);
  flatRoutes : list FlatRoute.t
}.

(** [new Router()], app.js lines 3-9. *)
Definition newRouter : Router := mkRouter [] [].

(** [pathToRoute(contentPath)], app.js lines 38-45. *)
Definition pathToRoute (contentPath : JsOptString) : string :=
  match contentPath with
  | JsString s =>
      if nonEmpty s then
        let route :=
          replaceAtEnd sameCharIgnoreCase "/readme"
            (replaceAtEnd sameCharIgnoreCase "/README"
               (replaceAtEnd sameChar ".html" s)) in
        if nonEmpty route then route else "/"
      else "/"
  | _ => "/"
  end.

(** The body of the [forEach] callback of [buildRoutes], app.js lines 13-34,
    with the recursive call on the children inlined. *)
Fixpoint buildRoutesItem (parentPath : string) (item : ManifestNode) (r : Router)
  : Router :=
  match item with
  | Item title type content_path children =>
      let route := pathToRoute content_path in
      let r := mkRouter
                 (mapSet route (mkRouteData title type content_path parentPath)
                    (routes r))
                 (flatRoutes r) in
      let r := mkRouter (routes r)
                 (List.app (flatRoutes r) [FlatRoute.mk route title type content_path]) in
      fold_left (fun acc child => buildRoutesItem route child acc) children r
  end.

(** [buildRoutes(items, parentPath)], app.js lines 12-35. *)
Definition buildRoutes (items : list ManifestNode) (parentPath : string) (r : Router)
  : Router :=
  fold_left (fun acc item => buildRoutesItem parentPath item acc) items r.

(** [findMatchingRoute(route)], app.js lines 86-93. *)
Fixpoint findMatchingRoute (table : list (string * RouteData)) (route : string)
  : option string :=
  match table with
  | [] => None
  | (r, _) :: table' =>
      if startsWith r route || startsWith route r then Some r
      else findMatchingRoute table' route
  end.

Record Page : Type := mkPage {
  router : Router;
  pathname : string;                  (* window.location.pathname *)
  historyCalls : list HistoryCall;    (* most recent first *)
  treeItems : list TreeItem;          (* document order *)
  contentBody : string;               (* #content-body innerHTML *)
  breadcrumbHtml : string;            (* #breadcrumb innerHTML *)
  documentTitle : string
}.

Definition setLocation (url : string) (call : HistoryCall) (p : Page) : Page :=
  mkPage (router p) url (call :: historyCalls p) (treeItems p) (contentBody p)
    (breadcrumbHtml p) (documentTitle p).
Definition setTreeItems (v : list TreeItem) (p : Page) : Page :=
  mkPage (router p) (pathname p) (historyCalls p) v (contentBody p)
    (breadcrumbHtml p) (documentTitle p).
Definition setContentBody (v : string) (p : Page) : Page :=
  mkPage (router p) (pathname p) (historyCalls p) (treeItems p) v
    (breadcrumbHtml p) (documentTitle p).
Definition setBreadcrumbHtml (v : string) (p : Page) : Page :=
  mkPage (router p) (pathname p) (historyCalls p) (treeItems p) (contentBody p)
    v (documentTitle p).
Definition setDocumentTitle (v : string) (p : Page) : Page :=
  mkPage (router p) (pathname p) (historyCalls p) (treeItems p) (contentBody p)
    (breadcrumbHtml p) v.

Inductive Outcome : Type :=
| Finished (p : Page)
| Uncaught (error : string)
| OutOfFuel.

(** [getCurrentRoute()], app.js lines 58-62. *)
Definition getCurrentRoute (p : Page) : string :=
  let path := pathname p in
  if nonEmpty path then path else "/".

(** [navigate(route, replace)], app.js lines 48-55, over the handler it
    re-enters. *)
Definition navigate (handleRoute : Page -> Outcome) (route : string) (replace : bool)
    (p : Page) : Outcome :=
  let p :=
    if replace then setLocation route (ReplaceState route) p
    else setLocation route (PushState route) p in
  handleRoute p.

(** [updateActiveNav(route)], app.js lines 109-126: the statements of
    router.js lines 259-276. *)
Definition updateActiveNav (route : string) (p : Page) : Page :=
  setTreeItems (activeNavItems route (treeItems p)) p.

(** [updateBreadcrumb(route, routeData)], app.js lines 129-148. *)
Definition updateBreadcrumb (route : string) (routeData : RouteData) (p : Page) : Page :=
  let parts := breadcrumbParts route in
  setBreadcrumbHtml
    (fst (fst (fold_left (breadcrumbStep parts (title routeData)) parts
                 (homeLink, EmptyString, 0))))
    p.

(** [show404()], app.js lines 151-155. *)
Definition show404 (p : Page) : Page :=
  setBreadcrumbHtml notFoundBreadcrumb (setContentBody notFoundMarkup p).

Definition contentUrl (routeData : RouteData) : string :=
  "./content-store" ++ interpolate (contentPath routeData).

Definition loadErrorMarkup (routeData : RouteData) : string :=
  "<p>Error loading: " ++ interpolate (contentPath routeData) ++ "</p>".

Section Navigation.

Variable fetch : string -> FetchOutcome.

(** [loadContent(routeData)], app.js lines 96-106. *)
Definition loadContent (routeData : RouteData) (p : Page) : Completion Page :=
  tryCatch
    (match fetch (contentUrl routeData) with
     | FetchRejected => Throw "TypeError: Failed to fetch"
     | FetchResponse ok text =>
         if negb ok then Throw "Not found"
         else match text with
              | Some body => Normal (setContentBody body p)
              | None => Throw "TypeError: Failed to read the body"
              end
     end)
    (fun _ => Normal (setContentBody (loadErrorMarkup routeData) p)).

(** [handleRoute()], app.js lines 65-83. *)
Fixpoint handleRoute (fuel : nat) (p : Page) : Outcome :=
  match fuel with
  | O => OutOfFuel
  | S fuel' =>
      let route := getCurrentRoute p in
      let routeData := mapGet route (routes (router p)) in
      match routeData with
      | Some routeData =>
          match loadContent routeData p with
          | Normal p =>
              let p := updateActiveNav route p in
              let p := updateBreadcrumb route routeData p in
              Finished (setDocumentTitle (title routeData ++ " - Doc.") p)
          | Throw error => Uncaught error
          end
      | None =>
          let matchedRoute := findMatchingRoute (routes (router p)) route in
          match matchedRoute with
          | Some matchedRoute =>
              if nonEmpty matchedRoute
              then navigate (handleRoute fuel') matchedRoute true p
              else Finished (show404 p)
          | None => Finished (show404 p)
          end
      end
  end.

(** What [loadContent] leaves in the content region. *)
Definition contentFor (routeData : RouteData) : string :=
  match fetch (contentUrl routeData) with
  | FetchResponse true (Some body) => body
  | _ => loadErrorMarkup routeData
  end.

(** The page that shows the entry of a route. *)
Definition routeShown (route : string) (routeData : RouteData) (p : Page) : Page :=
  setDocumentTitle (title routeData ++ " - Doc.")
    (updateBreadcrumb route routeData
       (updateActiveNav route (setContentBody (contentFor routeData) p))).

End Navigation.

End Legacy.

(** * Properties *)

Example pathToSubRoute_readme :
  pathToSubRoute (JsString "/nature/README.html") = "/nature".
Proof. reflexivity. Qed.

Example pathToSubRoute_lowercase_readme :
  pathToSubRoute (JsString "/nature/ReadMe.html") = "/nature".
Proof. reflexivity. Qed.

Example pathToSubRoute_file :
  pathToSubRoute (JsString "/nature/trees.html") = "/nature/trees".
Proof. reflexivity. Qed.

Example pathToSubRoute_absent : pathToSubRoute JsUndefined = "".
Proof. reflexivity. Qed.

Example pathToSubRoute_root_readme : pathToSubRoute (JsString "/README.html") = "".
Proof. reflexivity. Qed.

Example splitOn_notes :
  splitOn "/" "/notes/a/b" = [""; "notes"; "a"; "b"].
Proof. reflexivity. Qed.

Example resolve_notesfoo : resolveNamedRoute "/notesfoo" = None.
Proof. reflexivity. Qed.

(** ** Strings *)

Lemma append_assoc (a b c : string) : (a ++ b) ++ c = a ++ (b ++ c).
Proof. induction a as [|x a IH]; simpl; [reflexivity | now rewrite IH]. Qed.

Lemma append_empty_r (a : string) : a ++ EmptyString = a.
Proof. induction a as [|x a IH]; simpl; [reflexivity | now rewrite IH]. Qed.

Lemma nonEmpty_false (s : string) : nonEmpty s = false <-> s = EmptyString.
Proof.
  unfold nonEmpty. rewrite negb_false_iff. apply String.eqb_eq.
Qed.

Lemma startsWith_iff (s p : string) :
  startsWith s p = true <-> exists rest, s = p ++ rest.
Proof.
  unfold startsWith. revert s.
  induction p as [|a p IH]; intros s.
  - destruct s; simpl; split; intros; eauto.
  - destruct s as [|b s]; simpl.
    + split; [discriminate | intros [rest H]; discriminate].
    + destruct (ascii_dec a b) as [->|Hab].
      * rewrite IH. split; intros [rest H]; exists rest; congruence.
      * split; [discriminate | intros [rest H]; congruence].
Qed.

(** ** Suffix replacement *)

Section SuffixReplacement.
Variable eqc : ascii -> ascii -> bool.
Variable pat : string.

Lemma matchesBy_length (s : string) :
  matchesBy eqc pat s = true -> String.length s = String.length pat.
Proof.
  revert s. induction pat as [|a q IH]; intros [|b s]; simpl; try discriminate.
  - reflexivity.
  - intros H. apply andb_true_iff in H as [_ H]. now rewrite (IH s H).
Qed.

Lemma replaceAtEnd_no_match (s : string) :
  endsWithBy eqc pat s = false -> replaceAtEnd eqc pat s = s.
Proof.
  induction s as [|c s IH]; simpl; intros H; apply orb_false_iff in H as [Hm Hs];
    rewrite Hm; [reflexivity | now rewrite IH].
Qed.

Lemma replaceAtEnd_match_length (s : string) :
  endsWithBy eqc pat s = true ->
  String.length (replaceAtEnd eqc pat s) + String.length pat = String.length s.
Proof.
  induction s as [|c s IH]; simpl; intros H.
  - destruct (matchesBy eqc pat EmptyString) eqn:Hm; [|discriminate].
    apply matchesBy_length in Hm. simpl in *. lia.
  - destruct (matchesBy eqc pat (String c s)) eqn:Hm.
    + apply matchesBy_length in Hm. simpl in *. lia.
    + simpl in *. rewrite <- (IH H). reflexivity.
Qed.

Lemma replaceAtEnd_length_le (s : string) :
  String.length (replaceAtEnd eqc pat s) <= String.length s.
Proof.
  destruct (endsWithBy eqc pat s) eqn:H.
  - apply replaceAtEnd_match_length in H. lia.
  - now rewrite replaceAtEnd_no_match.
Qed.

End SuffixReplacement.

Lemma toUpper_idempotent (c : ascii) : toUpper (toUpper c) = toUpper c.
Proof.
  unfold toUpper.
  destruct (Nat.leb 97 (nat_of_ascii c) && Nat.leb (nat_of_ascii c) 122) eqn:H;
    [|now rewrite H].
  apply andb_true_iff in H as [H1 H2].
  apply Nat.leb_le in H1, H2.
  rewrite nat_ascii_embedding by lia.
  replace (Nat.leb 97 (nat_of_ascii c - 32)) with false; [reflexivity|].
  symmetry. apply Nat.leb_gt. lia.
Qed.

Lemma matchesBy_ignoreCase_upper (pat s : string) :
  matchesBy sameCharIgnoreCase (upperString pat) s = matchesBy sameCharIgnoreCase pat s.
Proof.
  revert s. induction pat as [|a pat IH]; intros [|b s]; simpl; try reflexivity.
  unfold sameCharIgnoreCase at 1 3. now rewrite toUpper_idempotent, IH.
Qed.

Lemma endsWithBy_ignoreCase_upper (pat s : string) :
  endsWithBy sameCharIgnoreCase (upperString pat) s
  = endsWithBy sameCharIgnoreCase pat s.
Proof.
  induction s as [|c s IH]; simpl; rewrite matchesBy_ignoreCase_upper;
    [reflexivity | now rewrite IH].
Qed.

(** The two index-document patterns of [pathToSubRoute] test the same thing. *)
Lemma endsWith_README_readme (s : string) :
  endsWithBy sameCharIgnoreCase "/README" s = endsWithBy sameCharIgnoreCase "/readme" s.
Proof. exact (endsWithBy_ignoreCase_upper "/readme" s). Qed.

(** ** Path normalizer *)

Lemma orEmpty_id (x : string) : orEmpty x = x.
Proof.
  unfold orEmpty. destruct (nonEmpty x) eqn:H; [reflexivity|].
  apply nonEmpty_false in H. now subst.
Qed.

(** On a string, [pathToSubRoute] is the three replacements in a row; the
    guards for the empty string change nothing. *)
Lemma pathToSubRoute_string (s : string) :
  pathToSubRoute (JsString s)
  = replaceAtEnd sameCharIgnoreCase "/readme"
      (replaceAtEnd sameCharIgnoreCase "/README"
         (replaceAtEnd sameChar ".html" s)).
Proof.
  unfold pathToSubRoute. rewrite orEmpty_id.
  destruct (nonEmpty s) eqn:H; [reflexivity|].
  apply nonEmpty_false in H. subst. reflexivity.
Qed.

Lemma pathToSubRoute_falsy (contentPath : JsOptString) :
  truthy contentPath = false -> pathToSubRoute contentPath = EmptyString.
Proof.
  destruct contentPath as [| |s]; simpl; intros H; try reflexivity.
  now rewrite H.
Qed.

(** C3 (as the code has it): the path normalizer is a function of its
    argument, and normalizing a normalized path [r] gives [r] back exactly when
    [r] ends neither in the page extension [.html] nor in an index-document
    segment [/readme] (in any letter case). It is not idempotent on every
    input: a result can still end in one of the suffixes that one pass
    strips. *)
Theorem pathToSubRoute_renormalize :
  (forall p q : JsOptString, p = q -> pathToSubRoute p = pathToSubRoute q) /\
  (forall p : JsOptString,
      pathToSubRoute (JsString (pathToSubRoute p)) = pathToSubRoute p
      <-> endsWithBy sameChar ".html" (pathToSubRoute p) = false
          /\ endsWithBy sameCharIgnoreCase "/readme" (pathToSubRoute p) = false).
Proof.
  split; [intros p q ->; reflexivity|].
  intros p. generalize (pathToSubRoute p) as r. intros r.
  rewrite pathToSubRoute_string.
  split.
  - intros Hfix.
    assert (Hlen :
      String.length
        (replaceAtEnd sameCharIgnoreCase "/readme"
           (replaceAtEnd sameCharIgnoreCase "/README"
              (replaceAtEnd sameChar ".html" r))) = String.length r)
      by now rewrite Hfix.
    pose proof (replaceAtEnd_length_le sameCharIgnoreCase "/readme"
                  (replaceAtEnd sameCharIgnoreCase "/README"
                     (replaceAtEnd sameChar ".html" r))) as L3.
    pose proof (replaceAtEnd_length_le sameCharIgnoreCase "/README"
                  (replaceAtEnd sameChar ".html" r)) as L2.
    destruct (endsWithBy sameChar ".html" r) eqn:Hhtml.
    + apply replaceAtEnd_match_length in Hhtml. simpl in Hhtml. lia.
    + split; [reflexivity|].
      rewrite (replaceAtEnd_no_match _ _ _ Hhtml) in *.
      destruct (endsWithBy sameCharIgnoreCase "/readme" r) eqn:Hidx; [|reflexivity].
      rewrite <- endsWith_README_readme in Hidx.
      apply replaceAtEnd_match_length in Hidx. simpl in Hidx. lia.
  - intros [Hhtml Hidx].
    rewrite (replaceAtEnd_no_match _ _ _ Hhtml).
    rewrite (replaceAtEnd_no_match sameCharIgnoreCase "/README")
      by now rewrite endsWith_README_readme.
    now apply replaceAtEnd_no_match.
Qed.

(** C3, a path on which a second pass changes the result: the first pass
    strips one [.html] and leaves another. *)
Lemma pathToSubRoute_not_idempotent :
  pathToSubRoute (JsString "/archive/index.html.html") = "/archive/index.html"
  /\ pathToSubRoute (JsString (pathToSubRoute (JsString "/archive/index.html.html")))
     = "/archive/index"
  /\ pathToSubRoute (JsString (pathToSubRoute (JsString "/archive/index.html.html")))
     <> pathToSubRoute (JsString "/archive/index.html.html").
Proof. repeat split; try reflexivity. vm_compute. discriminate. Qed.

(** ** Named-route resolver *)

Lemma resolveNamedRoute_notes_iff (path : string) :
  resolveNamedRoute path = Some notes
  <-> path = "/notes"
      \/ (exists rest, path = "/notes/" ++ rest)
      \/ (exists rest, path = "/notes?" ++ rest).
Proof.
  unfold resolveNamedRoute.
  destruct (String.eqb_spec path "/") as [->|H1].
  { split; [discriminate|].
    intros [H|[[rest H]|[rest H]]]; discriminate. }
  destruct (String.eqb_spec path "/about") as [->|H2].
  { split; [discriminate|].
    intros [H|[[rest H]|[rest H]]]; discriminate. }
  destruct (String.eqb_spec path "/notes") as [->|H3]; cbn [orb].
  { split; auto. }
  destruct (startsWith path "/notes/") eqn:H4; cbn [orb].
  { apply startsWith_iff in H4. split; auto. }
  destruct (startsWith path "/notes?") eqn:H5.
  { apply startsWith_iff in H5. split; auto. }
  split; [discriminate|].
  intros [H|[H|H]]; [contradiction| |]; apply startsWith_iff in H; congruence.
Qed.

Lemma resolveNamedRoute_home_iff (path : string) :
  resolveNamedRoute path = Some home <-> path = "/".
Proof.
  unfold resolveNamedRoute.
  destruct (String.eqb_spec path "/") as [->|H1]; [split; auto|].
  destruct (path =? "/about"); [split; [discriminate | contradiction]|].
  destruct ((path =? "/notes") || startsWith path "/notes/" || startsWith path "/notes?");
    split; (discriminate || contradiction).
Qed.

Lemma resolveNamedRoute_about_iff (path : string) :
  resolveNamedRoute path = Some about <-> path = "/about".
Proof.
  unfold resolveNamedRoute.
  destruct (String.eqb_spec path "/") as [->|H1]; [split; discriminate|].
  destruct (String.eqb_spec path "/about") as [->|H2]; [split; auto|].
  destruct ((path =? "/notes") || startsWith path "/notes/" || startsWith path "/notes?");
    split; (discriminate || contradiction).
Qed.

Lemma resolveNamedRoute_none_iff (path : string) :
  resolveNamedRoute path = None
  <-> path <> "/" /\ path <> "/about" /\ path <> "/notes"
      /\ (forall rest, path <> "/notes/" ++ rest)
      /\ (forall rest, path <> "/notes?" ++ rest).
Proof.
  split.
  - intros H.
    split; [intros ->; discriminate H|].
    split; [intros ->; discriminate H|].
    split; [intros ->; discriminate H|].
    split; intros rest ->.
    + assert (Hn : resolveNamedRoute ("/notes/" ++ rest) = Some notes)
        by (apply resolveNamedRoute_notes_iff; eauto).
      congruence.
    + assert (Hn : resolveNamedRoute ("/notes?" ++ rest) = Some notes)
        by (apply resolveNamedRoute_notes_iff; eauto).
      congruence.
  - intros (H1 & H2 & H3 & H4 & H5).
    destruct (resolveNamedRoute path) as [[| |]|] eqn:H; [| | |reflexivity].
    + apply resolveNamedRoute_home_iff in H. contradiction.
    + apply resolveNamedRoute_about_iff in H. contradiction.
    + apply resolveNamedRoute_notes_iff in H as [H|[[rest H]|[rest H]]].
      * contradiction.
      * now apply H4 in H.
      * now apply H5 in H.
Qed.

(** A pass on a path no named route claims ends on the 404 page. *)
Lemma handleRoute_unresolved (fetch : string -> FetchOutcome) (fuel : nat) (p : Page) :
  resolveNamedRoute (getCurrentRoute p) = None ->
  handleRoute fetch (S fuel) p
  = Finished (show404 (updateTopNav None (applyLayout None p))).
Proof. intros H. cbn [handleRoute]. now rewrite H. Qed.

(** C4: the named-route resolver, case by case. ['/'] and only it resolves to
    [home]; ['/about'] and only it to [about]; [notes] is the answer exactly
    for ['/notes'] and the paths that begin with ['/notes/'] or ['/notes?'];
    every other path, ['/notesfoo'] among them, resolves to none, and
    [handleRoute] then shows the 404 page. *)
Theorem resolveNamedRoute_cases :
  (forall path, resolveNamedRoute path = Some home <-> path = "/")
  /\ (forall path, resolveNamedRoute path = Some about <-> path = "/about")
  /\ (forall path,
        resolveNamedRoute path = Some notes
        <-> path = "/notes"
            \/ (exists rest, path = "/notes/" ++ rest)
            \/ (exists rest, path = "/notes?" ++ rest))
  /\ (forall path,
        resolveNamedRoute path = None
        <-> path <> "/" /\ path <> "/about" /\ path <> "/notes"
            /\ (forall rest, path <> "/notes/" ++ rest)
            /\ (forall rest, path <> "/notes?" ++ rest))
  /\ resolveNamedRoute "/notesfoo" = None
  /\ (forall (fetch : string -> FetchOutcome) (fuel : nat) (p : Page),
        resolveNamedRoute (getCurrentRoute p) = None ->
        handleRoute fetch (S fuel) p
        = Finished (show404 (updateTopNav None (applyLayout None p)))).
Proof.
  split; [exact resolveNamedRoute_home_iff|].
  split; [exact resolveNamedRoute_about_iff|].
  split; [exact resolveNamedRoute_notes_iff|].
  split; [exact resolveNamedRoute_none_iff|].
  split; [reflexivity|].
  exact handleRoute_unresolved.
Qed.

(** ** Maps in insertion order *)

Section MapFacts.
Context {V : Type}.
Implicit Types (m writes : list (string * V)) (k : string) (v : V).

Lemma mapGet_mapSet k k' v m :
  mapGet k (mapSet k' v m) = if k' =? k then Some v else mapGet k m.
Proof.
  induction m as [|[k0 v0] m IH]; simpl; [reflexivity|].
  destruct (String.eqb_spec k0 k') as [->|H]; simpl.
  - destruct (k' =? k); reflexivity.
  - rewrite IH. destruct (String.eqb_spec k0 k) as [->|H2]; [|reflexivity].
    destruct (String.eqb_spec k' k); [congruence | reflexivity].
Qed.

Lemma keys_mapSet k k' v m :
  In k (map fst (mapSet k' v m)) <-> k = k' \/ In k (map fst m).
Proof.
  induction m as [|[k0 v0] m IH]; simpl.
  - intuition congruence.
  - destruct (String.eqb_spec k0 k') as [->|H]; simpl; [intuition congruence|].
    rewrite IH. intuition congruence.
Qed.

Lemma NoDup_mapSet k v m :
  NoDup (map fst m) -> NoDup (map fst (mapSet k v m)).
Proof.
  induction m as [|[k0 v0] m IH]; simpl; intros H.
  - constructor; [intros [] | constructor].
  - inversion H as [|? ? Hnotin Hrest]; subst.
    destruct (String.eqb_spec k0 k) as [->|Hne]; simpl.
    + now constructor.
    + constructor; [|now apply IH].
      rewrite keys_mapSet. intros [->|Hin]; contradiction.
Qed.

Lemma mapGet_In_keys k m :
  In k (map fst m) <-> exists v, mapGet k m = Some v.
Proof.
  induction m as [|[k0 v0] m IH]; simpl.
  - split; [intros [] | intros [v H]; discriminate].
  - destruct (String.eqb_spec k0 k) as [->|Hne].
    + split; eauto.
    + rewrite <- IH. intuition congruence.
Qed.

Lemma applyWrites_app writes1 writes2 m :
  applyWrites (writes1 ++ writes2) m = applyWrites writes2 (applyWrites writes1 m).
Proof. apply fold_left_app. Qed.

Lemma mapGet_applyWrites k writes m :
  mapGet k (applyWrites writes m)
  = fold_left (fun acc e => if fst e =? k then Some (snd e) else acc) writes
      (mapGet k m).
Proof.
  revert m. induction writes as [|[k1 v1] writes IH]; intros m; simpl;
    [reflexivity|].
  now rewrite IH, mapGet_mapSet.
Qed.

Lemma keys_applyWrites k writes m :
  In k (map fst (applyWrites writes m))
  <-> In k (map fst writes) \/ In k (map fst m).
Proof.
  revert m. induction writes as [|[k1 v1] writes IH]; intros m; simpl.
  - intuition.
  - rewrite IH, keys_mapSet. intuition congruence.
Qed.

Lemma NoDup_applyWrites writes m :
  NoDup (map fst m) -> NoDup (map fst (applyWrites writes m)).
Proof.
  revert m. induction writes as [|[k1 v1] writes IH]; intros m H; simpl;
    [assumption|].
  now apply IH, NoDup_mapSet.
Qed.

(** Writes to the first key of a map stay at its head; the others pass on
    to the rest of it. *)
Lemma applyWrites_cons writes k v m :
  applyWrites writes ((k, v) :: m)
  = (k, lastOr v k writes) :: applyWrites (dropKey k writes) m.
Proof.
  revert v m. induction writes as [|[k1 v1] writes IH]; intros v m; simpl;
    [reflexivity|].
  unfold lastOr. simpl.
  destruct (String.eqb_spec k k1) as [->|Hne].
  - rewrite String.eqb_refl. simpl. apply IH.
  - rewrite (proj2 (String.eqb_neq k1 k)) by congruence. simpl. apply IH.
Qed.

Lemma lastOr_cases (d : V) k writes :
  lastOr d k writes = d \/ forall d', lastOr d' k writes = lastOr d k writes.
Proof.
  revert d. induction writes as [|[k1 v1] writes IH]; intros d.
  - now left.
  - unfold lastOr. simpl. destruct (k1 =? k).
    + right. reflexivity.
    + apply IH.
Qed.

Lemma lastOr_again (d : V) k writes :
  lastOr (lastOr d k writes) k writes = lastOr d k writes.
Proof.
  destruct (lastOr_cases d k writes) as [H|H]; [now rewrite !H | apply H].
Qed.

Lemma dropKey_length k writes : List.length (dropKey k writes) <= List.length writes.
Proof. apply filter_length_le. Qed.

Lemma applyWrites_twice_bounded (n : nat) : forall writes m,
  List.length writes + List.length m <= n ->
  applyWrites writes (applyWrites writes m) = applyWrites writes m.
Proof.
  induction n as [|n IH]; intros writes m Hn.
  - destruct writes, m; simpl in Hn; try lia. reflexivity.
  - destruct m as [|[k v] m].
    + destruct writes as [|[k v] writes]; [reflexivity|].
      change (applyWrites ((k, v) :: writes) [])
        with (applyWrites writes [(k, v)]).
      rewrite applyWrites_cons.
      change (applyWrites ((k, v) :: writes)
                ((k, lastOr v k writes) :: applyWrites (dropKey k writes) []))
        with (applyWrites writes
                (mapSet k v ((k, lastOr v k writes) :: applyWrites (dropKey k writes) []))).
      simpl mapSet. rewrite String.eqb_refl.
      rewrite applyWrites_cons. f_equal.
      apply IH. pose proof (dropKey_length k writes). simpl in *. lia.
    + rewrite !applyWrites_cons, lastOr_again. f_equal.
      apply IH. pose proof (dropKey_length k writes). simpl in *. lia.
Qed.

(** Replaying a sequence of writes changes nothing: every key is already in
    its place with the value of its last write. *)
Lemma applyWrites_twice writes m :
  applyWrites writes (applyWrites writes m) = applyWrites writes m.
Proof. now apply (applyWrites_twice_bounded (List.length writes + List.length m)). Qed.


End MapFacts.

(** ** Route table builder *)

(** Induction on a manifest node with the property known for its children. *)
Lemma ManifestNode_forest_ind (P : ManifestNode -> Prop) :
  (forall title type content_path children,
      Forall P children -> P (Item title type content_path children)) ->
  forall item, P item.
Proof.
  intros step. fix IH 1. intros [title type content_path children].
  apply step. induction children as [|child children IHc]; constructor.
  - apply IH.
  - exact IHc.
Qed.

Lemma BuildsAs_nil (r : Router) : BuildsAs [] r r.
Proof. repeat split. simpl. now rewrite app_nil_r. Qed.

Lemma BuildsAs_trans nodes1 nodes2 (r1 r2 r3 : Router) :
  BuildsAs nodes1 r1 r2 -> BuildsAs nodes2 r2 r3 ->
  BuildsAs (nodes1 ++ nodes2) r1 r3.
Proof.
  intros (Ht1 & Hf1 & Hc1) (Ht2 & Hf2 & Hc2). repeat split.
  - now rewrite map_app, applyWrites_app, <- Ht1.
  - now rewrite map_app, app_assoc, <- Hf1.
  - congruence.
Qed.

Lemma fold_buildRoutesItem (parentPath : string) (items : list ManifestNode) :
  Forall (fun item => forall parent r,
              BuildsAs (nodesOfItem parent item) r (buildRoutesItem parent item r))
         items ->
  forall r,
    BuildsAs (flat_map (nodesOfItem parentPath) items) r
      (fold_left (fun acc item => buildRoutesItem parentPath item acc) items r).
Proof.
  induction 1 as [|item items Hitem _ IH]; intros r; simpl.
  - apply BuildsAs_nil.
  - eapply BuildsAs_trans; [apply Hitem | apply IH].
Qed.

Lemma buildRoutesItem_BuildsAs (item : ManifestNode) :
  forall parentPath r,
    BuildsAs (nodesOfItem parentPath item) r (buildRoutesItem parentPath item r).
Proof.
  induction item as [title type content_path children IH]
    using ManifestNode_forest_ind.
  intros parentPath r.
  cbn [buildRoutesItem nodesOfItem].
  eapply (BuildsAs_trans [(parentPath, Item title type content_path children)]);
    [|now apply fold_buildRoutesItem].
  repeat split.
Qed.

Lemma buildRoutes_BuildsAs (items : list ManifestNode) (parentPath : string)
    (r : Router) :
  BuildsAs (allNodes parentPath items) r (buildRoutes items parentPath r).
Proof.
  apply fold_buildRoutesItem. apply Forall_forall.
  intros item _. apply buildRoutesItem_BuildsAs.
Qed.

Lemma nodeEntry_key (n : string * ManifestNode) : fst (nodeEntry n) = nodeRoute (snd n).
Proof. destruct n as [parent [title type content_path children]]. reflexivity. Qed.

Lemma nodeFlat_route (n : string * ManifestNode) :
  FlatRoute.route (nodeFlat n) = nodeRoute (snd n).
Proof. destruct n as [parent [title type content_path children]]. reflexivity. Qed.

Lemma nodeEntry_keys (nodes : list (string * ManifestNode)) :
  map fst (map nodeEntry nodes) = map (fun n => nodeRoute (snd n)) nodes.
Proof. rewrite map_map. apply map_ext, nodeEntry_key. Qed.

Lemma nodeRoute_falsy (item : ManifestNode) :
  truthy (nodeContentPath item) = false -> nodeRoute item = "/notes".
Proof.
  intros H. unfold nodeRoute. now rewrite pathToSubRoute_falsy.
Qed.

(** The table of a freshly built router. *)
Lemma routes_buildRoutes_fresh (items : list ManifestNode) :
  routes (buildRoutes items "" newRouter)
  = applyWrites (map nodeEntry (allNodes "" items)) [].
Proof. now destruct (buildRoutes_BuildsAs items "" newRouter) as (H & _ & _). Qed.

Lemma flatRoutes_buildRoutes_fresh (items : list ManifestNode) :
  flatRoutes (buildRoutes items "" newRouter) = map nodeFlat (allNodes "" items).
Proof. now destruct (buildRoutes_BuildsAs items "" newRouter) as (_ & H & _). Qed.

(** C2 (as the code has it): after [buildRoutes] on a fresh router the table
    holds exactly one entry per key; its keys are the routes
    ['/notes' + pathToSubRoute(content_path)] of all the nodes of the forest,
    children of every node included; the entry under a key is the one of the
    last node built with that key; and a node whose content path is missing or
    empty is no exception: it is entered under the key ['/notes']. *)
Theorem buildRoutes_table (items : list ManifestNode) :
  NoDup (map fst (routes (buildRoutes items "" newRouter)))
  /\ (forall k,
        In k (map fst (routes (buildRoutes items "" newRouter)))
        <-> exists n, In n (allNodes "" items) /\ nodeRoute (snd n) = k)
  /\ (forall k,
        mapGet k (routes (buildRoutes items "" newRouter))
        = lastWrite k (map nodeEntry (allNodes "" items)))
  /\ (forall n,
        In n (allNodes "" items) ->
        truthy (nodeContentPath (snd n)) = false ->
        nodeRoute (snd n) = "/notes"
        /\ In "/notes" (map fst (routes (buildRoutes items "" newRouter)))).
Proof.
  rewrite routes_buildRoutes_fresh.
  assert (Hkeys : forall k,
    In k (map fst (applyWrites (map nodeEntry (allNodes "" items)) []))
    <-> exists n, In n (allNodes "" items) /\ nodeRoute (snd n) = k).
  { intros k. rewrite keys_applyWrites, nodeEntry_keys, in_map_iff. simpl.
    split.
    - intros [(n & Hn & Hin)|[]]. eauto.
    - intros (n & Hin & Hn). left. eauto. }
  split; [apply NoDup_applyWrites; constructor|].
  split; [exact Hkeys|].
  split.
  - intros k. now rewrite mapGet_applyWrites.
  - intros n Hin Hfalsy. split; [now apply nodeRoute_falsy|].
    apply Hkeys. exists n. split; [assumption | now apply nodeRoute_falsy].
Qed.

(** C2, a manifest on which the claim fails: the folder has no content path,
    and yet the table holds an entry for it, under ['/notes'], a key that no
    node with a content path has. *)
Lemma buildRoutes_enters_node_without_content_path :
  routes (buildRoutes draftsManifest "" newRouter)
  = [("/notes", RouteData.mk "Drafts" "directory" JsNull "" notes);
     ("/notes/nature/trees",
      RouteData.mk "Trees" "file" (JsString "/nature/trees.html") "/notes" notes)]
  /\ In "/notes" (map fst (routes (buildRoutes draftsManifest "" newRouter)))
  /\ ~ (exists n,
          In n (allNodes "" draftsManifest)
          /\ truthy (nodeContentPath (snd n)) = true
          /\ nodeRoute (snd n) = "/notes").
Proof.
  split; [reflexivity|]. split; [now left|].
  intros (n & Hin & Htruthy & Hroute).
  simpl in Hin. destruct Hin as [<-|[<-|[]]]; discriminate.
Qed.

(** C8 (as the code has it): a second [buildRoutes] on the same forest leaves
    the route table as the first one made it, and appends the forest's flat
    entries to the flat list once more; the first element of the flat list is
    the same after both. *)
Theorem buildRoutes_again (items : list ManifestNode) (parentPath : string)
    (r : Router) :
  routes (buildRoutes items parentPath (buildRoutes items parentPath r))
  = routes (buildRoutes items parentPath r)
  /\ flatRoutes (buildRoutes items parentPath (buildRoutes items parentPath r))
     = (flatRoutes (buildRoutes items parentPath r)
        ++ map nodeFlat (allNodes parentPath items))%list
  /\ hd_error (flatRoutes (buildRoutes items parentPath (buildRoutes items parentPath r)))
     = hd_error (flatRoutes (buildRoutes items parentPath r)).
Proof.
  destruct (buildRoutes_BuildsAs items parentPath r) as (Ht1 & Hf1 & _).
  destruct (buildRoutes_BuildsAs items parentPath (buildRoutes items parentPath r))
    as (Ht2 & Hf2 & _).
  split; [|split].
  - now rewrite Ht2, Ht1, applyWrites_twice.
  - exact Hf2.
  - rewrite Hf2, Hf1.
    destruct (flatRoutes r) as [|f fs]; simpl; [|reflexivity].
    destruct (map nodeFlat (allNodes parentPath items)); reflexivity.
Qed.

(** C8, a manifest on which the claim fails: built twice, its one node stands
    twice in the flat list. *)
Lemma buildRoutes_again_appends :
  flatRoutes
    (buildRoutes [Item "Trees" "file" (JsString "/nature/trees.html") []] ""
       (buildRoutes [Item "Trees" "file" (JsString "/nature/trees.html") []] ""
          newRouter))
  = [FlatRoute.mk "/notes/nature/trees" "Trees" "file" (JsString "/nature/trees.html");
     FlatRoute.mk "/notes/nature/trees" "Trees" "file" (JsString "/nature/trees.html")]
  /\ flatRoutes
       (buildRoutes [Item "Trees" "file" (JsString "/nature/trees.html") []] ""
          newRouter)
     = [FlatRoute.mk "/notes/nature/trees" "Trees" "file" (JsString "/nature/trees.html")].
Proof. split; reflexivity. Qed.

(** ** Layout *)

Lemma chromeConsistent_hidden : chromeConsistent (mkChrome true "none" "none" "none" "none").
Proof. repeat split. Qed.

Lemma chromeConsistent_shown : chromeConsistent (mkChrome false "" "" "" "").
Proof.
  split; [repeat split|]. simpl.
  split; [discriminate | intros [H _]; discriminate].
Qed.

Lemma chrome_applyLayout (name : option NamedRouteName) (p : Page) :
  chrome (applyLayout name p)
  = if showsSidebar name then mkChrome false "" "" "" ""
    else mkChrome true "none" "none" "none" "none".
Proof. unfold applyLayout. destruct (showsSidebar name); reflexivity. Qed.

Lemma applyLayout_consistent (name : option NamedRouteName) (p : Page) :
  chromeConsistent (chrome (applyLayout name p)).
Proof.
  rewrite chrome_applyLayout.
  destruct (showsSidebar name);
    [apply chromeConsistent_shown | apply chromeConsistent_hidden].
Qed.

Lemma applyLayouts_consistent (names : list (option NamedRouteName)) :
  forall p, chromeConsistent (chrome p) -> chromeConsistent (chrome (applyLayouts names p)).
Proof.
  induction names as [|name names IH]; intros p H; simpl; [assumption|].
  apply IH, applyLayout_consistent.
Qed.

(** ** One pass of the route handler *)

Section Passes.
Variable fetch : string -> FetchOutcome.

(** The content loader always completes normally. *)
Lemma renderNotes_normal (routeData : RouteData.t) (p : Page) :
  renderNotes fetch routeData p
  = Normal (setContentBody (contentFor fetch routeData) p).
Proof.
  unfold renderNotes, contentFor.
  destruct (fetch (contentUrl routeData)) as [|[|] [body|]]; reflexivity.
Qed.

Lemma contentFor_failed (routeData : RouteData.t) :
  fetchFailed (fetch (contentUrl routeData)) = true ->
  contentFor fetch routeData = loadErrorMarkup routeData.
Proof.
  unfold contentFor.
  destruct (fetch (contentUrl routeData)) as [|[|] [body|]];
    (reflexivity || discriminate).
Qed.

Lemma handleRoute_home (fuel : nat) (p : Page) :
  resolveNamedRoute (getCurrentRoute p) = Some home ->
  handleRoute fetch (S fuel) p
  = Finished (setDocumentTitle "Home - Doc." (renderHome (laidOut p))).
Proof. intros H. unfold laidOut. cbn [handleRoute]. now rewrite H. Qed.

Lemma handleRoute_about (fuel : nat) (p : Page) :
  resolveNamedRoute (getCurrentRoute p) = Some about ->
  handleRoute fetch (S fuel) p
  = Finished (setDocumentTitle "About - Doc." (renderAbout (laidOut p))).
Proof. intros H. unfold laidOut. cbn [handleRoute]. now rewrite H. Qed.

Lemma handleRoute_found (fuel : nat) (p : Page) (routeData : RouteData.t) :
  resolveNamedRoute (getCurrentRoute p) = Some notes ->
  mapGet (getCurrentRoute p) (routes (router p)) = Some routeData ->
  handleRoute fetch (S fuel) p
  = Finished (routeShown fetch (getCurrentRoute p) routeData (laidOut p)).
Proof.
  intros Hname Hget. unfold laidOut, routeShown. cbn [handleRoute].
  rewrite Hname.
  change (routes (router (updateTopNav (Some notes) (applyLayout (Some notes) p))))
    with (routes (router p)).
  rewrite Hget, renderNotes_normal. reflexivity.
Qed.

Lemma handleRoute_first_route (fuel : nat) (p : Page) (firstRoute : FlatRoute.t)
    (others : list FlatRoute.t) :
  getCurrentRoute p = "/notes" ->
  mapGet "/notes" (routes (router p)) = None ->
  flatRoutes (router p) = firstRoute :: others ->
  handleRoute fetch (S fuel) p
  = handleRoute fetch fuel (redirected (FlatRoute.route firstRoute) (laidOut p)).
Proof.
  intros Hroute Hget Hflat. unfold laidOut, redirected. cbn [handleRoute].
  rewrite Hroute.
  change (resolveNamedRoute "/notes") with (Some notes).
  change (routes (router (updateTopNav (Some notes) (applyLayout (Some notes) p))))
    with (routes (router p)).
  change (flatRoutes (router (updateTopNav (Some notes) (applyLayout (Some notes) p))))
    with (flatRoutes (router p)).
  rewrite Hget, Hflat. reflexivity.
Qed.

Lemma handleRoute_no_named_route (fuel : nat) (p : Page) :
  resolveNamedRoute (getCurrentRoute p) = None ->
  handleRoute fetch (S fuel) p = Finished (show404 (laidOut p)).
Proof. intros H. unfold laidOut. cbn [handleRoute]. now rewrite H. Qed.

Lemma handleRoute_not_found (fuel : nat) (p : Page) :
  resolveNamedRoute (getCurrentRoute p) = Some notes ->
  mapGet (getCurrentRoute p) (routes (router p)) = None ->
  getCurrentRoute p <> "/notes" \/ flatRoutes (router p) = [] ->
  handleRoute fetch (S fuel) p
  = match findMatchingRoute (routes (router p)) (getCurrentRoute p) with
    | Some matchedRoute =>
        if nonEmpty matchedRoute
        then handleRoute fetch fuel (redirected matchedRoute (laidOut p))
        else Finished (show404 (laidOut p))
    | None => Finished (show404 (laidOut p))
    end.
Proof.
  intros Hname Hget Hroot. unfold laidOut, redirected. cbn [handleRoute].
  rewrite Hname.
  change (routes (router (updateTopNav (Some notes) (applyLayout (Some notes) p))))
    with (routes (router p)).
  change (flatRoutes (router (updateTopNav (Some notes) (applyLayout (Some notes) p))))
    with (flatRoutes (router p)).
  rewrite Hget.
  assert (Hfirst :
    (if getCurrentRoute p =? "/notes" then hd_error (flatRoutes (router p)) else None)
    = None).
  { destruct Hroot as [Hne|Hnil].
    - now rewrite (proj2 (String.eqb_neq _ _) Hne).
    - rewrite Hnil. now destruct (getCurrentRoute p =? "/notes"). }
  rewrite Hfirst. reflexivity.
Qed.

End Passes.

(** ** The chrome stays consistent *)

Lemma laidOut_consistent (p : Page) : chromeConsistent (chrome (laidOut p)).
Proof.
  change (chrome (laidOut p))
    with (chrome (applyLayout (resolveNamedRoute (getCurrentRoute p)) p)).
  apply applyLayout_consistent.
Qed.


(** Wherever [handleRoute] settles, the chrome is the one its last pass laid
    out. *)
Lemma handleRoute_consistent (fetch : string -> FetchOutcome) (fuel : nat) :
  forall p p',
    handleRoute fetch fuel p = Finished p' -> chromeConsistent (chrome p').
Proof.
  induction fuel as [|fuel IH]; intros p p' H; [discriminate|].
  pose proof (laidOut_consistent p) as Hlaid.
  destruct (resolveNamedRoute (getCurrentRoute p)) as [[| |]|] eqn:Hname.
  - rewrite (handleRoute_home fetch fuel p Hname) in H.
    injection H as <-. exact Hlaid.
  - rewrite (handleRoute_about fetch fuel p Hname) in H.
    injection H as <-. exact Hlaid.
  - destruct (mapGet (getCurrentRoute p) (routes (router p))) as [routeData|] eqn:Hget.
    + rewrite (handleRoute_found fetch fuel p routeData Hname Hget) in H.
      injection H as <-. exact Hlaid.
    + destruct (String.eqb_spec (getCurrentRoute p) "/notes") as [Hroot|Hroot].
      * destruct (flatRoutes (router p)) as [|firstRoute others] eqn:Hflat.
        -- rewrite (handleRoute_not_found fetch fuel p Hname Hget (or_intror Hflat)) in H.
           destruct (findMatchingRoute (routes (router p)) (getCurrentRoute p)) as [m|].
           ++ destruct (nonEmpty m); [now apply IH in H|].
              injection H as <-. exact Hlaid.
           ++ injection H as <-. exact Hlaid.
        -- rewrite Hroot in Hget.
           rewrite (handleRoute_first_route fetch fuel p firstRoute others Hroot Hget Hflat)
             in H.
           now apply IH in H.
      * rewrite (handleRoute_not_found fetch fuel p Hname Hget (or_introl Hroot)) in H.
        destruct (findMatchingRoute (routes (router p)) (getCurrentRoute p)) as [m|].
        -- destruct (nonEmpty m); [now apply IH in H|].
           injection H as <-. exact Hlaid.
        -- injection H as <-. exact Hlaid.
  - rewrite (handleRoute_unresolved fetch fuel p Hname) in H.
    injection H as <-.
    change (chromeConsistent (chrome (applyLayout None p))).
    apply applyLayout_consistent.
Qed.

(** C9: [applyLayout] for a named route without sidebar ([home], [about], or
    none) hides the sidebar, the menu toggle, the overlay and the breadcrumb
    and puts the [home-page] class on the app root; for a named route with
    sidebar ([notes]) it shows all four and takes the class away. After any
    application, after any sequence of applications, and wherever
    [handleRoute] settles, the four elements carry the same [display] and the
    class is present exactly when they are hidden. *)
Theorem applyLayout_chrome :
  (forall name p,
      showsSidebar name = false ->
      chrome (applyLayout name p) = mkChrome true "none" "none" "none" "none")
  /\ (forall name p,
        showsSidebar name = true ->
        chrome (applyLayout name p) = mkChrome false "" "" "" "")
  /\ (showsSidebar (Some home) = false /\ showsSidebar (Some about) = false
      /\ showsSidebar (Some notes) = true /\ showsSidebar None = false)
  /\ (forall name p, chromeConsistent (chrome (applyLayout name p)))
  /\ (forall name names p,
        chromeConsistent (chrome (applyLayouts names (applyLayout name p))))
  /\ (forall fetch fuel p p',
        handleRoute fetch fuel p = Finished p' -> chromeConsistent (chrome p')).
Proof.
  split; [intros name p H; now rewrite chrome_applyLayout, H|].
  split; [intros name p H; now rewrite chrome_applyLayout, H|].
  split; [repeat split|].
  split; [exact applyLayout_consistent|].
  split; [|exact handleRoute_consistent].
  intros name names p. apply applyLayouts_consistent, applyLayout_consistent.
Qed.

(** ** Breadcrumb *)

Lemma crumbsMarkup_app (a b : list Crumb) :
  crumbsMarkup (a ++ b) = crumbsMarkup a ++ crumbsMarkup b.
Proof.
  induction a as [|c a IH]; simpl; [reflexivity|].
  now rewrite IH, append_assoc.
Qed.

Lemma breadcrumb_fold (parts : list string) (title : string) (todo : list string) :
  forall crumbs currentPath i,
    fst (fst (fold_left (breadcrumbStep parts title) todo
                (crumbsMarkup crumbs, currentPath, i)))
    = crumbsMarkup
        (fst (fst (fold_left (crumbStep parts title) todo (crumbs, currentPath, i)))).
Proof.
  induction todo as [|part todo IH]; intros crumbs currentPath i; [reflexivity|].
  cbn [fold_left breadcrumbStep crumbStep].
  destruct (Nat.eqb i (List.length parts - 1)).
  - rewrite <- IH. do 3 f_equal.
    rewrite !crumbsMarkup_app. simpl crumbsMarkup.
    now rewrite !append_empty_r.
  - rewrite <- IH. do 3 f_equal.
    rewrite !crumbsMarkup_app. cbn [crumbsMarkup fold_right crumbMarkup].
    now rewrite !append_empty_r.
Qed.

(** The markup [updateBreadcrumb] writes is the markup of its pieces. *)
Lemma breadcrumbMarkup_crumbs (route : string) (routeData : RouteData.t) :
  breadcrumbMarkup route routeData
  = crumbsMarkup (breadcrumbCrumbs route routeData).
Proof.
  unfold breadcrumbMarkup, breadcrumbCrumbs.
  rewrite <- breadcrumb_fold. reflexivity.
Qed.

(** C5 (as the code has it): for the path ['/notes/a/b'] and a route titled
    [B] the breadcrumb has four link and text segments, one more than the
    path's segments: the [Home] link to ['/'], then a link for each segment but
    the last under its cumulative path, [notes] to ['/notes'] and [a] to
    ['/notes/a'], then the title [B] as plain text. *)
Theorem breadcrumb_notes_a_b (type : string) (contentPath : JsOptString)
    (parentPath : string) (namedRoute : NamedRouteName) (p : Page) :
  linkTextSegments
    (breadcrumbCrumbs "/notes/a/b"
       (RouteData.mk "B" type contentPath parentPath namedRoute))
  = [CrumbLink "/" "Home"; CrumbLink "/notes" "notes"; CrumbLink "/notes/a" "a";
     CrumbText "B"]
  /\ breadcrumbHtml
       (updateBreadcrumb "/notes/a/b"
          (RouteData.mk "B" type contentPath parentPath namedRoute) p)
     = crumbsMarkup
         [CrumbLink "/" "Home"; CrumbSeparator; CrumbLink "/notes" "notes";
          CrumbSeparator; CrumbLink "/notes/a" "a"; CrumbSeparator; CrumbText "B"].
Proof.
  split; [reflexivity|].
  unfold updateBreadcrumb. cbn [breadcrumbHtml setBreadcrumbHtml].
  now rewrite breadcrumbMarkup_crumbs.
Qed.

(** C5, the claim's three segments are not what the code produces: the
    segment [notes] of the path is a link of its own. *)
Lemma breadcrumb_notes_a_b_not_three :
  ~ exists href,
      linkTextSegments
        (breadcrumbCrumbs "/notes/a/b"
           (RouteData.mk "B" "file" (JsString "/a/b.html") "/notes/a" notes))
      = [CrumbLink "/" "Home"; CrumbLink href "a"; CrumbText "B"].
Proof. intros [href H]. vm_compute in H. discriminate H. Qed.

(** ** Routers built from a manifest *)

Lemma fold_lastWrite_unwritten {V : Type} (k : string) (writes : list (string * V)) :
  ~ In k (map fst writes) ->
  forall acc,
    fold_left (fun acc e => if fst e =? k then Some (snd e) else acc) writes acc = acc.
Proof.
  induction writes as [|[k1 v1] writes IH]; intros Hnotin acc; simpl;
    [reflexivity|].
  simpl in Hnotin.
  rewrite (proj2 (String.eqb_neq k1 k)) by intuition.
  apply IH. intuition.
Qed.

Lemma builtFrom_no_flat_no_routes (items : list ManifestNode) (p : Page) :
  builtFrom items p -> flatRoutes (router p) = [] -> routes (router p) = [].
Proof.
  intros [Ht Hf] Hnil.
  rewrite Ht, routes_buildRoutes_fresh.
  rewrite Hf, flatRoutes_buildRoutes_fresh in Hnil.
  apply map_eq_nil in Hnil. now rewrite Hnil.
Qed.



(** ** Fallback matcher *)


(** ** Navigation *)

Section Redirects.
Variable fetch : string -> FetchOutcome.



End Redirects.

Lemma getCurrentRoute_pathname (p : Page) (path : string) :
  nonEmpty path = true -> pathname p = path -> getCurrentRoute p = path.
Proof. intros H <-. unfold getCurrentRoute. now rewrite H. Qed.

(** ** The section root *)




(** C7 (as the code has it): on a router built from a manifest whose flat
    list is empty, the table is empty too, and handling ['/notes'] settles in
    one pass without history call and without request: the notes layout is
    applied and the 404 page is rendered into the content region and the
    breadcrumb. *)
Theorem empty_section_root (fetch : string -> FetchOutcome)
    (items : list ManifestNode) (p : Page) (fuel : nat) :
  builtFrom items p ->
  pathname p = "/notes" ->
  flatRoutes (router p) = [] ->
  mapGet "/notes" (routes (router p)) = None
  /\ handleRoute fetch (S fuel) p = Finished (show404 (laidOut p))
  /\ historyCalls (show404 (laidOut p)) = historyCalls p
  /\ pathname (show404 (laidOut p)) = "/notes"
  /\ contentBody (show404 (laidOut p)) = notFoundMarkup
  /\ breadcrumbHtml (show404 (laidOut p)) = notFoundBreadcrumb
  /\ chrome (show404 (laidOut p)) = mkChrome false "" "" "" "".
Proof.
  intros Hbuilt Hpath Hflat.
  assert (Hroute : getCurrentRoute p = "/notes")
    by now apply getCurrentRoute_pathname.
  pose proof (builtFrom_no_flat_no_routes items p Hbuilt Hflat) as Htable.
  assert (Hget : mapGet (getCurrentRoute p) (routes (router p)) = None)
    by now rewrite Htable.
  assert (Hname : resolveNamedRoute (getCurrentRoute p) = Some notes)
    by now rewrite Hroute.
  split; [now rewrite Htable|].
  split.
  { rewrite (handleRoute_not_found fetch fuel p Hname Hget (or_intror Hflat)).
    now rewrite Htable. }
  split; [reflexivity|]. split; [exact Hpath|].
  split; [reflexivity|]. split; [reflexivity|].
  change (chrome (show404 (laidOut p)))
    with (chrome (applyLayout (resolveNamedRoute (getCurrentRoute p)) p)).
  now rewrite Hname, chrome_applyLayout.
Qed.

(** C7, the pass is not silent: on an empty manifest the content region and
    the breadcrumb are overwritten with the 404 page. *)
Lemma empty_section_root_shows_404 :
  flatRoutes (router (bootPage [] "/notes")) = []
  /\ mapGet "/notes" (routes (router (bootPage [] "/notes"))) = None
  /\ exists p',
      handleRoute echoFetch 1 (bootPage [] "/notes") = Finished p'
      /\ contentBody p' = notFoundMarkup
      /\ breadcrumbHtml p' = notFoundBreadcrumb
      /\ contentBody p' <> contentBody (bootPage [] "/notes")
      /\ breadcrumbHtml p' <> breadcrumbHtml (bootPage [] "/notes").
Proof.
  split; [reflexivity|]. split; [reflexivity|].
  eexists. split; [vm_compute; reflexivity|].
  repeat split; try reflexivity; discriminate.
Qed.

Lemma empty_section_root_witness :
  builtFrom [] (bootPage [] "/notes")
  /\ handleRoute offlineFetch 1 (bootPage [] "/notes")
     = Finished (show404 (laidOut (bootPage [] "/notes"))).
Proof.
  split; [split; reflexivity|].
  exact (proj1 (proj2 (empty_section_root offlineFetch [] (bootPage [] "/notes") 0
                         (conj eq_refl eq_refl) eq_refl eq_refl))).
Defined.

(** ** No redirect loop *)





(** ** Content fetch failure *)

Lemma routeShown_but_content (fetch fetch' : string -> FetchOutcome) (route : string)
    (routeData : RouteData.t) (q : Page) (body : string) :
  setContentBody body (routeShown fetch route routeData q)
  = setContentBody body (routeShown fetch' route routeData q).
Proof. reflexivity. Qed.

(** C6: the content loader completes normally whatever the request comes to.
    When the request for a route's content fails (it is rejected, answered
    with a non-success status, or its body cannot be read), the content region
    shows the inline error naming the content path, and the pass of
    [handleRoute] goes on to the active links, the breadcrumb and the title:
    apart from the content region the page it settles on is the one any other
    answer of the network, a success included, leads to. *)
Theorem content_fetch_failure (fetch : string -> FetchOutcome) (p : Page)
    (routeData : RouteData.t) (fuel : nat) :
  resolveNamedRoute (getCurrentRoute p) = Some notes ->
  mapGet (getCurrentRoute p) (routes (router p)) = Some routeData ->
  fetchFailed (fetch (contentUrl routeData)) = true ->
  (forall fetch' routeData' q, exists q', renderNotes fetch' routeData' q = Normal q')
  /\ (forall q,
        renderNotes fetch routeData q
        = Normal (setContentBody
                    ("<p>Error loading: "
                     ++ interpolate (RouteData.contentPath routeData) ++ "</p>") q))
  /\ exists p',
      handleRoute fetch (S fuel) p = Finished p'
      /\ contentBody p'
         = "<p>Error loading: " ++ interpolate (RouteData.contentPath routeData) ++ "</p>"
      /\ treeItems p' = treeItems (updateActiveNav (getCurrentRoute p) (laidOut p))
      /\ breadcrumbHtml p' = breadcrumbMarkup (getCurrentRoute p) routeData
      /\ documentTitle p' = RouteData.title routeData ++ " - Doc."
      /\ historyCalls p' = historyCalls p
      /\ forall fetch',
          exists p'',
            handleRoute fetch' (S fuel) p = Finished p''
            /\ contentBody p'' = contentFor fetch' routeData
            /\ setContentBody EmptyString p'' = setContentBody EmptyString p'.
Proof.
  intros Hname Hget Hfailed.
  split.
  { intros fetch' routeData' q. rewrite renderNotes_normal. eauto. }
  split.
  { intros q. rewrite renderNotes_normal, (contentFor_failed fetch routeData Hfailed).
    reflexivity. }
  exists (routeShown fetch (getCurrentRoute p) routeData (laidOut p)).
  split; [now apply handleRoute_found|].
  split.
  { change (contentBody (routeShown fetch (getCurrentRoute p) routeData (laidOut p)))
      with (contentFor fetch routeData).
    now rewrite (contentFor_failed fetch routeData Hfailed). }
  do 4 (split; [reflexivity|]).
  intros fetch'.
  exists (routeShown fetch' (getCurrentRoute p) routeData (laidOut p)).
  split; [now apply handleRoute_found|].
  split; [reflexivity | apply routeShown_but_content].
Qed.

Lemma content_fetch_failure_witness :
  fetchFailed
    (offlineFetch
       (contentUrl
          (RouteData.mk "Trees" "file" (JsString "/nature/trees.html")
             "/notes/nature" notes))) = true
  /\ exists p',
      handleRoute offlineFetch 1 (bootPage natureManifest "/notes/nature/trees")
      = Finished p'
      /\ contentBody p' = "<p>Error loading: /nature/trees.html</p>"
      /\ documentTitle p' = "Trees - Doc.".
Proof.
  split; [reflexivity|].
  destruct (proj2 (proj2
              (content_fetch_failure offlineFetch
                 (bootPage natureManifest "/notes/nature/trees")
                 (RouteData.mk "Trees" "file" (JsString "/nature/trees.html")
                    "/notes/nature" notes)
                 0 eq_refl eq_refl eq_refl)))
    as (p' & Hrun & Hbody & _ & _ & Htitle & _).
  exists p'. repeat split; assumption.
Defined.

(** ** Further properties *)

(** X1: a path outside every named route ends on the 404 page in one pass,
    without history call: the content region holds the not-found markup, the
    breadcrumb reads [Home / 404], and the layout is the one without sidebar. *)
Theorem unregistered_path_not_found (fetch : string -> FetchOutcome) (p : Page)
    (fuel : nat) :
  resolveNamedRoute (getCurrentRoute p) = None ->
  exists p',
    handleRoute fetch (S fuel) p = Finished p'
    /\ contentBody p' = notFoundMarkup
    /\ breadcrumbHtml p' = homeLink ++ " <span>/</span> 404"
    /\ historyCalls p' = historyCalls p
    /\ chrome p' = mkChrome true "none" "none" "none" "none".
Proof.
  intros Hname. exists (show404 (laidOut p)).
  split; [now apply handleRoute_no_named_route|].
  do 3 (split; [reflexivity|]).
  change (chrome (show404 (laidOut p)))
    with (chrome (applyLayout (resolveNamedRoute (getCurrentRoute p)) p)).
  now rewrite Hname, chrome_applyLayout.
Qed.

Lemma unregistered_path_not_found_witness :
  resolveNamedRoute (getCurrentRoute (bootPage natureManifest "/nowhere")) = None
  /\ exists p',
      handleRoute echoFetch 1 (bootPage natureManifest "/nowhere") = Finished p'
      /\ contentBody p' = notFoundMarkup.
Proof.
  split; [reflexivity|].
  destruct (unregistered_path_not_found echoFetch
              (bootPage natureManifest "/nowhere") 0 eq_refl)
    as (p' & Hrun & Hbody & _).
  exists p'. now split.
Defined.

(** X2: the end-to-end scenario. The nature manifest yields the routes
    ['/notes/nature'] (titled Nature) and ['/notes/nature/trees'] (titled
    Trees); visiting ['/notes'] redirects with [replaceState] to
    ['/notes/nature'] and renders it; visiting ['/notes/nature/unknown'] falls
    back to ['/notes/nature'] in the same way. *)
Theorem nature_scenario :
  routes (buildRoutes natureManifest "" newRouter)
  = [("/notes/nature",
      RouteData.mk "Nature" "directory" (JsString "/nature/README.html") "" notes);
     ("/notes/nature/trees",
      RouteData.mk "Trees" "file" (JsString "/nature/trees.html") "/notes/nature"
        notes)]
  /\ (exists p',
        handleRoute echoFetch 2 (bootPage natureManifest "/notes") = Finished p'
        /\ pathname p' = "/notes/nature"
        /\ historyCalls p' = [ReplaceState "/notes/nature"]
        /\ documentTitle p' = "Nature - Doc."
        /\ contentBody p' = "<h1>/content-store/nature/README.html</h1>")
  /\ (exists p',
        handleRoute echoFetch 2 (bootPage natureManifest "/notes/nature/unknown")
        = Finished p'
        /\ pathname p' = "/notes/nature"
        /\ historyCalls p' = [ReplaceState "/notes/nature"]
        /\ documentTitle p' = "Nature - Doc."
        /\ contentBody p' = "<h1>/content-store/nature/README.html</h1>").
Proof.
  split; [reflexivity|].
  split; (eexists; split; [vm_compute; reflexivity | repeat split]).
Qed.

(** X3: the links of the sidebar never miss the table. [buildFileTree] gives
    the link of a node the [href] [pathToRoute(item.content_path)], and after
    [buildRoutes] on a new router the table has an entry under that route, for
    every node of the forest. *)
Theorem sidebar_links_have_routes (items : list ManifestNode) (parentPath : string)
    (item : ManifestNode) :
  In (parentPath, item) (allNodes "" items) ->
  exists routeData,
    mapGet (pathToRoute (nodeContentPath item))
      (routes (buildRoutes items "" newRouter)) = Some routeData.
Proof.
  intros Hin. apply mapGet_In_keys.
  rewrite routes_buildRoutes_fresh, keys_applyWrites, nodeEntry_keys, in_map_iff.
  left. now exists (parentPath, item).
Qed.

Lemma sidebar_links_have_routes_witness :
  exists routeData,
    mapGet (pathToRoute (JsString "/nature/trees.html"))
      (routes (buildRoutes natureManifest "" newRouter)) = Some routeData.
Proof.
  apply (sidebar_links_have_routes natureManifest "/notes/nature"
           (Item "Trees" "file" (JsString "/nature/trees.html") [])).
  simpl. right. left. reflexivity.
Defined.

(** ** The passes of the route handler *)

Section PassStructure.
Variable fetch : string -> FetchOutcome.

(** Every pass either settles or redirects. *)
Lemma handleRoute_pass (q : Page) :
  (exists p',
      Settles fetch q p'
      /\ forall fuel, handleRoute fetch (S fuel) q = Finished p')
  \/ (exists r,
        Redirects q r
        /\ forall fuel,
            handleRoute fetch (S fuel) q
            = handleRoute fetch fuel (redirected r (laidOut q))).
Proof.
  destruct (resolveNamedRoute (getCurrentRoute q)) as [[| |]|] eqn:Hname.
  - left. eexists.
    split; [now apply SettlesHome | intros fuel; now apply handleRoute_home].
  - left. eexists.
    split; [now apply SettlesAbout | intros fuel; now apply handleRoute_about].
  - destruct (mapGet (getCurrentRoute q) (routes (router q))) as [routeData|] eqn:Hget.
    { left. exists (routeShown fetch (getCurrentRoute q) routeData (laidOut q)).
      split; [now apply SettlesFound | intros fuel; now apply handleRoute_found]. }
    assert (Hnot_found :
      getCurrentRoute q <> "/notes" \/ flatRoutes (router q) = [] ->
      (exists p',
          Settles fetch q p'
          /\ forall fuel, handleRoute fetch (S fuel) q = Finished p')
      \/ (exists r,
            Redirects q r
            /\ forall fuel,
                handleRoute fetch (S fuel) q
                = handleRoute fetch fuel (redirected r (laidOut q)))).
    { intros Hroot.
      destruct (findMatchingRoute (routes (router q)) (getCurrentRoute q))
        as [m|] eqn:Hmatch.
      - destruct (nonEmpty m) eqn:Hne.
        + right. exists m. split; [now apply RedirectsFallback|].
          intros fuel.
          now rewrite (handleRoute_not_found fetch fuel q Hname Hget Hroot), Hmatch, Hne.
        + left. eexists. split.
          { apply SettlesNotFound. right. repeat split; try assumption.
            intros m' Hm'. congruence. }
          intros fuel.
          now rewrite (handleRoute_not_found fetch fuel q Hname Hget Hroot), Hmatch, Hne.
      - left. eexists. split.
        { apply SettlesNotFound. right. repeat split; try assumption.
          intros m' Hm'. congruence. }
        intros fuel.
        now rewrite (handleRoute_not_found fetch fuel q Hname Hget Hroot), Hmatch. }
    destruct (String.eqb_spec (getCurrentRoute q) "/notes") as [Hroot|Hroot];
      [|now apply Hnot_found; left].
    destruct (flatRoutes (router q)) as [|firstRoute others] eqn:Hflat;
      [now apply Hnot_found; right|].
    rewrite Hroot in Hget.
    right. exists (FlatRoute.route firstRoute).
    split; [now apply (RedirectsFirst q firstRoute others)|].
    intros fuel. now apply (handleRoute_first_route fetch fuel q firstRoute others).
  - left. eexists.
    split; [apply SettlesNotFound; now left|].
    intros fuel. now apply handleRoute_no_named_route.
Qed.

(** A finished call went through redirects to a page on which a pass
    settled. *)
Lemma handleRoute_finished (fuel : nat) :
  forall p p',
    handleRoute fetch fuel p = Finished p' ->
    exists q, RedirectsTo p q /\ Settles fetch q p'.
Proof.
  induction fuel as [|fuel IH]; intros p p' H; [discriminate|].
  destruct (handleRoute_pass p) as [(p0 & Hsettles & Hrun)|(r & Hred & Hrun)].
  - rewrite Hrun in H. injection H as <-.
    exists p. split; [constructor | exact Hsettles].
  - rewrite Hrun in H. destruct (IH _ _ H) as (q & Hto & Hsettles).
    exists q. split; [now apply (RedirectsToNext p q r) | exact Hsettles].
Qed.

(** The result of a call does not depend on the passes left over. *)
Lemma handleRoute_more_fuel (fuel : nat) :
  forall p p' extra,
    handleRoute fetch fuel p = Finished p' ->
    handleRoute fetch (fuel + extra) p = Finished p'.
Proof.
  induction fuel as [|fuel IH]; intros p p' extra H; [discriminate|].
  change (S fuel + extra) with (S (fuel + extra)).
  destruct (handleRoute_pass p) as [(p0 & _ & Hrun)|(r & _ & Hrun)].
  - rewrite Hrun in *. exact H.
  - rewrite Hrun in *. now apply IH.
Qed.

End PassStructure.

(** ** What a call of the route handler leaves alone, and what it syncs *)

Section Frame.
Variable fetch : string -> FetchOutcome.

Lemma topNavFor_nav (name : option NamedRouteName) (links : list NavLink) :
  map nav (topNavFor name links) = map nav links.
Proof. unfold topNavFor. rewrite map_map. reflexivity. Qed.

Lemma topNavFor_same_nav (name : option NamedRouteName) (links links' : list NavLink) :
  map nav links = map nav links' -> topNavFor name links = topNavFor name links'.
Proof.
  intros H. unfold topNavFor.
  rewrite <- (map_map nav (fun v => mkNavLink v (navIs name v)) links).
  rewrite <- (map_map nav (fun v => mkNavLink v (navIs name v)) links').
  now rewrite H.
Qed.

Lemma Settles_frame (q p' : Page) :
  Settles fetch q p' ->
  routes (router p') = routes (router q)
  /\ flatRoutes (router p') = flatRoutes (router q)
  /\ historyCalls p' = historyCalls q
  /\ pathname p' = pathname q
  /\ currentNamedRoute (router p') = resolveNamedRoute (getCurrentRoute q)
  /\ chrome p' = chromeFor (resolveNamedRoute (getCurrentRoute q))
  /\ navLinks p' = topNavFor (resolveNamedRoute (getCurrentRoute q)) (navLinks q).
Proof.
  intros H.
  assert (Hchrome : chrome (laidOut q) = chromeFor (resolveNamedRoute (getCurrentRoute q)))
    by apply chrome_applyLayout.
  destruct H; repeat split; exact Hchrome.
Qed.

Lemma RedirectsTo_frame (p q : Page) :
  RedirectsTo p q ->
  routes (router q) = routes (router p)
  /\ flatRoutes (router q) = flatRoutes (router p)
  /\ map nav (navLinks q) = map nav (navLinks p)
  /\ exists urls,
      historyCalls q = (map ReplaceState urls ++ historyCalls p)%list
      /\ pathname q = hd (pathname p) urls.
Proof.
  induction 1 as [p|p q r Hred Hto IH].
  - repeat split. now exists [].
  - destruct IH as (Ht & Hf & Hn & urls & Hh & Hp).
    split; [exact Ht|]. split; [exact Hf|].
    split.
    { rewrite Hn. apply (topNavFor_nav (resolveNamedRoute (getCurrentRoute p))). }
    exists (urls ++ [r])%list. split.
    + rewrite Hh, map_app, <- app_assoc. reflexivity.
    + rewrite Hp. destruct urls; reflexivity.
Qed.

Lemma handleRoute_frame_and_sync (fuel : nat) (p p' : Page) :
  handleRoute fetch fuel p = Finished p' ->
  routes (router p') = routes (router p)
  /\ flatRoutes (router p') = flatRoutes (router p)
  /\ (exists urls,
        historyCalls p' = (map ReplaceState urls ++ historyCalls p)%list
        /\ pathname p' = hd (pathname p) urls)
  /\ currentNamedRoute (router p') = resolveNamedRoute (getCurrentRoute p')
  /\ chrome p' = chromeFor (resolveNamedRoute (getCurrentRoute p'))
  /\ navLinks p' = topNavFor (resolveNamedRoute (getCurrentRoute p')) (navLinks p).
Proof.
  intros H.
  destruct (handleRoute_finished fetch fuel p p' H) as (q & Hto & Hsettles).
  destruct (RedirectsTo_frame p q Hto) as (Ht & Hf & Hn & urls & Hh & Hp).
  destruct (Settles_frame q p' Hsettles) as (Ht' & Hf' & Hh' & Hp' & Hc & Hchrome & Hnav).
  assert (Hcur : getCurrentRoute p' = getCurrentRoute q)
    by (unfold getCurrentRoute; now rewrite Hp').
  rewrite Hcur.
  split; [congruence|]. split; [congruence|].
  split; [exists urls; split; congruence|].
  split; [exact Hc|]. split; [exact Hchrome|].
  rewrite Hnav. now apply topNavFor_same_nav.
Qed.

End Frame.



(** X5: wherever [handleRoute] settles, the interface shows the named route
    of the URL it settled on: [currentNamedRoute] is that named route, the
    chrome is laid out for it, and in the top navigation exactly the links
    whose [data-nav] is its key are [active] (none when the URL resolves to no
    named route); the links themselves are the ones the page had. *)
Theorem handleRoute_reflects_url (fetch : string -> FetchOutcome) (fuel : nat)
    (p p' : Page) :
  handleRoute fetch fuel p = Finished p' ->
  currentNamedRoute (router p') = resolveNamedRoute (getCurrentRoute p')
  /\ chrome p' = chromeFor (resolveNamedRoute (getCurrentRoute p'))
  /\ navLinks p'
     = map (fun link =>
              mkNavLink (nav link)
                (navIs (resolveNamedRoute (getCurrentRoute p')) (nav link)))
         (navLinks p).
Proof.
  intros H.
  destruct (handleRoute_frame_and_sync fetch fuel p p' H)
    as (_ & _ & _ & Hc & Hchrome & Hnav).
  now repeat split.
Qed.

Lemma handleRoute_reflects_url_witness :
  exists p',
    handleRoute echoFetch 1 (bootPage natureManifest "/about") = Finished p'
    /\ currentNamedRoute (router p') = Some about
    /\ navLinks p'
       = [mkNavLink "home" false; mkNavLink "about" true; mkNavLink "notes" false].
Proof.
  pose proof (handleRoute_reflects_url echoFetch 1 (bootPage natureManifest "/about"))
    as H.
  destruct (handleRoute echoFetch 1 (bootPage natureManifest "/about"))
    as [p'|error|] eqn:Hrun;
    [|vm_compute in Hrun; discriminate Hrun..].
  destruct (H p' eq_refl) as (Hc & _ & Hnav).
  assert (Hpath : getCurrentRoute p' = "/about").
  { vm_compute in Hrun. injection Hrun as <-. reflexivity. }
  rewrite Hpath in Hc, Hnav.
  exists p'. split; [reflexivity|]. split; [exact Hc | exact Hnav].
Defined.

(** ** Sidebar *)

Lemma TreeItem_forest_ind (P : TreeItem -> Prop) :
  (forall href active expanded open items,
      Forall P items -> P (TreeLink href active expanded open items)) ->
  forall item, P item.
Proof.
  intros step. fix IH 1. intros [href active expanded open items].
  apply step. induction items as [|item items IHitems]; constructor.
  - apply IH.
  - exact IHitems.
Qed.

Section FirstHit.
Context {A : Type}.
Variable f : A -> option A.

Lemma firstHit_map (g : A -> A) (l : list A) :
  Forall (fun x => f (g x) = option_map g (f x)) l ->
  firstHit f (map g l) = option_map (map g) (firstHit f l).
Proof.
  induction 1 as [|x l Hx _ IH]; simpl; [reflexivity|].
  rewrite Hx. destruct (f x) as [x'|]; simpl; [reflexivity|].
  rewrite IH. destruct (firstHit f l); reflexivity.
Qed.

Lemma firstHit_again (l l' : list A) :
  Forall (fun x => forall x', f x = Some x' -> f x' = Some x') l ->
  firstHit f l = Some l' -> firstHit f l' = Some l'.
Proof.
  intros Hall. revert l'.
  induction Hall as [|x l Hx _ IH]; simpl; intros l' H; [discriminate|].
  destruct (f x) as [x'|] eqn:Hfx.
  - injection H as <-. simpl. now rewrite (Hx x' eq_refl).
  - destruct (firstHit f l) as [l''|]; [|discriminate].
    injection H as <-. simpl. rewrite Hfx. now rewrite (IH l'' eq_refl).
Qed.

Lemma firstPath_not_empty (path : A -> option (list nat)) (l : list A) :
  firstPath path l <> Some [].
Proof.
  induction l as [|x l IH]; simpl; [discriminate|].
  destruct (path x); [discriminate|].
  destruct (firstPath path l) as [[|i rest]|]; simpl;
    [contradiction | discriminate | discriminate].
Qed.

(** [firstHit] in two steps: the index of the first element [f] accepts,
    then the rewrite of that element. *)
Lemma firstHit_firstPath (path : A -> option (list nat)) (h : list nat -> A -> A)
    (l : list A) :
  Forall (fun x => f x = option_map (fun q => h q x) (path x)) l ->
  firstHit f l
  = option_map (fun q => match q with
                         | [] => l
                         | i :: rest => updateNth i (h rest) l
                         end)
      (firstPath path l).
Proof.
  induction 1 as [|x l Hx _ IH]; simpl; [reflexivity|].
  rewrite Hx. destruct (path x) as [q|]; simpl; [reflexivity|].
  rewrite IH. destruct (firstPath path l) as [[|i rest]|]; reflexivity.
Qed.

End FirstHit.

Lemma toggleActive_again (route : string) (item : TreeItem) :
  toggleActive route (toggleActive route item) = toggleActive route item.
Proof.
  induction item as [href active expanded open items IH] using TreeItem_forest_ind.
  simpl. f_equal. rewrite map_map. apply map_ext_Forall. exact IH.
Qed.

Lemma expandAncestors_toggleActive (route : string) (item : TreeItem) :
  expandAncestors route (toggleActive route item)
  = option_map (toggleActive route) (expandAncestors route item).
Proof.
  induction item as [href active expanded open items IH] using TreeItem_forest_ind.
  cbn [toggleActive expandAncestors].
  destruct (href =? route) eqn:Hhref.
  - cbn [option_map toggleActive]. now rewrite Hhref.
  - rewrite (firstHit_map _ _ _ IH).
    destruct (firstHit (expandAncestors route) items);
      cbn [option_map toggleActive]; now rewrite ?Hhref.
Qed.

Lemma expandAncestors_again (route : string) (item : TreeItem) :
  forall item',
    expandAncestors route item = Some item' ->
    expandAncestors route item' = Some item'.
Proof.
  induction item as [href active expanded open items IH] using TreeItem_forest_ind.
  intros item'. cbn [expandAncestors].
  destruct (href =? route) eqn:Hhref.
  - intros [= <-]. cbn [expandAncestors]. now rewrite Hhref.
  - destruct (firstHit (expandAncestors route) items) as [items'|] eqn:Hhit;
      [|discriminate].
    intros [= <-]. cbn [expandAncestors]. rewrite Hhref.
    now rewrite (firstHit_again _ _ _ IH Hhit).
Qed.

(** The walk up from the active link, as a search and a marking. *)
Lemma expandAncestors_linkPath (route : string) (item : TreeItem) :
  expandAncestors route item
  = option_map (fun path => openAlong path item) (linkPath route item).
Proof.
  induction item as [href active expanded open items IH] using TreeItem_forest_ind.
  cbn [expandAncestors linkPath].
  destruct (href =? route); [reflexivity|].
  rewrite (firstHit_firstPath _ _ openAlong _ IH).
  destruct (firstPath (linkPath route) items) as [[|i rest]|] eqn:Hpath; simpl.
  - now apply firstPath_not_empty in Hpath.
  - reflexivity.
  - reflexivity.
Qed.

Lemma itemLinks_toggleActive (route : string) (item : TreeItem) :
  itemLinks (toggleActive route item)
  = map (fun link => (fst link, fst link =? route)) (itemLinks item).
Proof.
  induction item as [href active expanded open items IH] using TreeItem_forest_ind.
  cbn [toggleActive itemLinks map fst]. f_equal.
  induction IH as [|x items Hx _ IHitems]; simpl; [reflexivity|].
  now rewrite map_app, Hx, IHitems.
Qed.

Lemma firstHit_links (f : TreeItem -> option TreeItem) (l l' : list TreeItem) :
  Forall (fun x => forall x', f x = Some x' -> itemLinks x' = itemLinks x) l ->
  firstHit f l = Some l' ->
  flat_map itemLinks l' = flat_map itemLinks l.
Proof.
  intros Hall. revert l'.
  induction Hall as [|x l Hx _ IH]; simpl; intros l' H; [discriminate|].
  destruct (f x) as [x'|].
  - injection H as <-. simpl. now rewrite (Hx x' eq_refl).
  - destruct (firstHit f l) as [l''|]; [|discriminate].
    injection H as <-. simpl. now rewrite (IH l'' eq_refl).
Qed.

Lemma itemLinks_expandAncestors (route : string) (item : TreeItem) :
  forall item',
    expandAncestors route item = Some item' -> itemLinks item' = itemLinks item.
Proof.
  induction item as [href active expanded open items IH] using TreeItem_forest_ind.
  intros item'. cbn [expandAncestors].
  destruct (href =? route); [now intros [= <-]|].
  destruct (firstHit (expandAncestors route) items) as [items'|] eqn:Hhit;
    [|discriminate].
  intros [= <-]. cbn [itemLinks]. f_equal.
  exact (firstHit_links _ _ _ IH Hhit).
Qed.

Lemma activeNavItems_unfold (route : string) (forest : list TreeItem) :
  activeNavItems route forest
  = match firstHit (expandAncestors route) (map (toggleActive route) forest) with
    | Some items' => items'
    | None => map (toggleActive route) forest
    end.
Proof. reflexivity. Qed.

Lemma updateActiveNav_treeItems (route : string) (p : Page) :
  updateActiveNav route p = setTreeItems (activeNavItems route (treeItems p)) p.
Proof. reflexivity. Qed.

Lemma activeNavItems_again (route : string) (forest : list TreeItem) :
  activeNavItems route (activeNavItems route forest) = activeNavItems route forest.
Proof.
  rewrite (activeNavItems_unfold route forest).
  assert (Hcommute :
    firstHit (expandAncestors route) (map (toggleActive route) forest)
    = option_map (map (toggleActive route))
        (firstHit (expandAncestors route) forest)).
  { apply firstHit_map, Forall_forall. intros x _.
    apply expandAncestors_toggleActive. }
  destruct (firstHit (expandAncestors route) (map (toggleActive route) forest))
    as [items'|] eqn:Hhit; rewrite activeNavItems_unfold.
  - assert (Htoggled : map (toggleActive route) items' = items').
    { destruct (firstHit (expandAncestors route) forest) as [j|];
        [|discriminate Hcommute].
      injection Hcommute as ->. rewrite map_map.
      apply map_ext. intros x. apply toggleActive_again. }
    rewrite Htoggled.
    rewrite (firstHit_again (expandAncestors route) _ items'
               (proj2 (Forall_forall _ _)
                  (fun x _ => expandAncestors_again route x)) Hhit).
    reflexivity.
  - rewrite map_map.
    rewrite (map_ext _ _ (toggleActive_again route)).
    now rewrite Hhit.
Qed.

Lemma updateActiveNav_again (route : string) (p : Page) :
  updateActiveNav route (updateActiveNav route p) = updateActiveNav route p.
Proof.
  rewrite !updateActiveNav_treeItems. cbn [treeItems setTreeItems].
  unfold setTreeItems. cbn [router pathname historyCalls chrome navLinks treeItems
                              contentBody breadcrumbHtml documentTitle].
  now rewrite activeNavItems_again.
Qed.

Lemma updateActiveNav_forestLinks (route : string) (p : Page) :
  forestLinks (treeItems (updateActiveNav route p))
  = map (fun link => (fst link, fst link =? route)) (forestLinks (treeItems p)).
Proof.
  unfold updateActiveNav, forestLinks. cbn [treeItems setTreeItems].
  assert (Htoggled :
    flat_map itemLinks (map (toggleActive route) (treeItems p))
    = map (fun link => (fst link, fst link =? route))
        (flat_map itemLinks (treeItems p))).
  { induction (treeItems p) as [|x items IH]; simpl; [reflexivity|].
    now rewrite map_app, itemLinks_toggleActive, IH. }
  destruct (firstHit (expandAncestors route) (map (toggleActive route) (treeItems p)))
    as [items'|] eqn:Hhit; [|exact Htoggled].
  rewrite <- Htoggled.
  apply (firstHit_links (expandAncestors route)); [|exact Hhit].
  apply Forall_forall. intros x _. apply itemLinks_expandAncestors.
Qed.

(** X6: [updateActiveNav] leaves [active] on exactly the links whose [href]
    is the route: in document order the links of the sidebar keep their
    [href], and each is active if and only if its [href] equals the route. *)
Theorem updateActiveNav_links (route : string) (p : Page) :
  forestLinks (treeItems (updateActiveNav route p))
  = map (fun link => (fst link, fst link =? route)) (forestLinks (treeItems p)).
Proof. apply updateActiveNav_forestLinks. Qed.

(** X7: the one-pass model of [updateActiveNav] does what the source does in
    two steps: after the toggle of [active], [querySelector] finds the first
    link in document order with the route as [href], and every item on the way
    down to that link, the link's own item excepted, has [open] put on its
    [div.children] and [expanded] on its arrow; without such a link only the
    toggle happens. *)
Theorem updateActiveNav_two_steps (route : string) (p : Page) :
  treeItems (updateActiveNav route p)
  = updateActiveNavInTwoSteps route (treeItems p).
Proof.
  unfold updateActiveNav, updateActiveNavInTwoSteps, querySelectorTreeLink.
  cbn [treeItems setTreeItems].
  rewrite (firstHit_firstPath (expandAncestors route) (linkPath route) openAlong).
  - destruct (firstPath (linkPath route) (map (toggleActive route) (treeItems p)))
      as [[|i rest]|]; reflexivity.
  - apply Forall_forall. intros x _. apply expandAncestors_linkPath.
Qed.

(** ** Handling a settled page again *)

Lemma page_eq (a b : Page) :
  router a = router b ->
  pathname a = pathname b ->
  historyCalls a = historyCalls b ->
  chrome a = chrome b ->
  navLinks a = navLinks b ->
  treeItems a = treeItems b ->
  contentBody a = contentBody b ->
  breadcrumbHtml a = breadcrumbHtml b ->
  documentTitle a = documentTitle b ->
  a = b.
Proof. destruct a, b. simpl. intros. now subst. Qed.

Lemma topNavFor_again (name : option NamedRouteName) (links : list NavLink) :
  topNavFor name (topNavFor name links) = topNavFor name links.
Proof. apply topNavFor_same_nav, topNavFor_nav. Qed.

Section SettledPages.
Variable fetch : string -> FetchOutcome.

(** A pass on the page a pass settled on settles on that page. *)
Lemma Settles_fixed (q p' : Page) :
  Settles fetch q p' -> forall fuel, handleRoute fetch (S fuel) p' = Finished p'.
Proof.
  intros H fuel. destruct H as [q Hname|q Hname|q routeData Hname Hget|q Hname].
  - rewrite handleRoute_home by exact Hname. f_equal.
    apply page_eq; try reflexivity.
    apply (topNavFor_again (resolveNamedRoute (getCurrentRoute q))).
  - rewrite handleRoute_about by exact Hname. f_equal.
    apply page_eq; try reflexivity.
    apply (topNavFor_again (resolveNamedRoute (getCurrentRoute q))).
  - rewrite (handleRoute_found fetch fuel _ routeData) by assumption. f_equal.
    apply page_eq; try reflexivity.
    + apply (topNavFor_again (resolveNamedRoute (getCurrentRoute q))).
    + apply (activeNavItems_again (getCurrentRoute q)).
  - assert (Hpass : handleRoute fetch (S fuel) (show404 (laidOut q))
                    = Finished (show404 (laidOut (show404 (laidOut q))))).
    { destruct Hname as [Hname|(Hname & Hget & Hroot & Hmatch)].
      - now apply handleRoute_no_named_route.
      - rewrite (handleRoute_not_found fetch fuel (show404 (laidOut q)) Hname Hget Hroot).
        change (findMatchingRoute (routes (router (show404 (laidOut q))))
                  (getCurrentRoute (show404 (laidOut q))))
          with (findMatchingRoute (routes (router q)) (getCurrentRoute q)).
        destruct (findMatchingRoute (routes (router q)) (getCurrentRoute q)) as [m|];
          [|reflexivity].
        now rewrite (Hmatch m eq_refl). }
    rewrite Hpass. f_equal.
    apply page_eq; try reflexivity.
    apply (topNavFor_again (resolveNamedRoute (getCurrentRoute q))).
Qed.

Lemma handleRoute_fixed (fuel : nat) (p p' : Page) :
  handleRoute fetch fuel p = Finished p' ->
  forall fuel', handleRoute fetch (S fuel') p' = Finished p'.
Proof.
  intros H.
  destruct (handleRoute_finished fetch fuel p p' H) as (q & _ & Hsettles).
  now apply (Settles_fixed q).
Qed.

End SettledPages.

(** X8: handling the URL a call of [handleRoute] settled on once more (a
    [popstate] that leaves the URL where it is, say) settles in one pass on the
    very same page, the network answering as before: no history call, no
    change to content, sidebar, breadcrumb, title or layout. *)
Theorem handleRoute_settled_again (fetch : string -> FetchOutcome) (fuel : nat)
    (p p' : Page) :
  handleRoute fetch fuel p = Finished p' ->
  forall fuel', handleRoute fetch (S fuel') p' = Finished p'.
Proof. apply handleRoute_fixed. Qed.

Lemma handleRoute_settled_again_witness :
  exists p',
    handleRoute echoFetch 2 (bootPage natureManifest "/notes/nature/unknown")
    = Finished p'
    /\ handleRoute echoFetch 1 p' = Finished p'.
Proof.
  pose proof (handleRoute_settled_again echoFetch 2
                (bootPage natureManifest "/notes/nature/unknown")) as H.
  destruct (handleRoute echoFetch 2 (bootPage natureManifest "/notes/nature/unknown"))
    as [p'|error|] eqn:Hrun;
    [|vm_compute in Hrun; discriminate Hrun..].
  exists p'. split; [reflexivity | exact (H p' eq_refl 0)].
Defined.

(** X9: a successful answer is put into the content region as it is. When
    the request for ['/content-store' + contentPath] of the route under the
    current path is answered with a success status and a readable body, the
    pass settles with exactly that body as the markup of the content region
    and with the route's title in the document title. *)
Theorem content_fetch_success (fetch : string -> FetchOutcome) (p : Page)
    (routeData : RouteData.t) (body : string) (fuel : nat) :
  resolveNamedRoute (getCurrentRoute p) = Some notes ->
  mapGet (getCurrentRoute p) (routes (router p)) = Some routeData ->
  fetch ("/content-store" ++ interpolate (RouteData.contentPath routeData))
  = FetchResponse true (Some body) ->
  exists p',
    handleRoute fetch (S fuel) p = Finished p'
    /\ contentBody p' = body
    /\ documentTitle p' = RouteData.title routeData ++ " - Doc."
    /\ breadcrumbHtml p' = breadcrumbMarkup (getCurrentRoute p) routeData
    /\ historyCalls p' = historyCalls p.
Proof.
  intros Hname Hget Hfetch.
  exists (routeShown fetch (getCurrentRoute p) routeData (laidOut p)).
  split; [now apply handleRoute_found|].
  split; [|now repeat split].
  change (contentBody (routeShown fetch (getCurrentRoute p) routeData (laidOut p)))
    with (contentFor fetch routeData).
  unfold contentFor, contentUrl. now rewrite Hfetch.
Qed.

Lemma content_fetch_success_witness :
  exists p',
    handleRoute echoFetch 1 (bootPage natureManifest "/notes/nature/trees")
    = Finished p'
    /\ contentBody p' = "<h1>/content-store/nature/trees.html</h1>".
Proof.
  destruct (content_fetch_success echoFetch
              (bootPage natureManifest "/notes/nature/trees")
              (RouteData.mk "Trees" "file" (JsString "/nature/trees.html")
                 "/notes/nature" notes)
              "<h1>/content-store/nature/trees.html</h1>" 0
              eq_refl eq_refl eq_refl)
    as (p' & Hrun & Hbody & _).
  exists p'. now split.
Defined.

(** X10: the home page is shown for the path ['/'] and also for an empty
    pathname, whatever the router holds: one pass, no history call, the home
    markup in the content region, the title [Home - Doc.], the chrome hidden
    with the [home-page] class set, and the markup of the breadcrumb and the
    sidebar left as they were. *)
Theorem home_for_root_or_empty_path (fetch : string -> FetchOutcome) (p : Page)
    (fuel : nat) :
  pathname p = "/" \/ pathname p = EmptyString ->
  exists p',
    handleRoute fetch (S fuel) p = Finished p'
    /\ contentBody p' = homeMarkup
    /\ documentTitle p' = "Home - Doc."
    /\ chrome p' = mkChrome true "none" "none" "none" "none"
    /\ currentNamedRoute (router p') = Some home
    /\ historyCalls p' = historyCalls p
    /\ pathname p' = pathname p
    /\ breadcrumbHtml p' = breadcrumbHtml p
    /\ treeItems p' = treeItems p.
Proof.
  intros Hpath.
  assert (Hroute : getCurrentRoute p = "/").
  { unfold getCurrentRoute. destruct Hpath as [-> | ->]; reflexivity. }
  assert (Hname : resolveNamedRoute (getCurrentRoute p) = Some home)
    by now rewrite Hroute.
  exists (setDocumentTitle "Home - Doc." (renderHome (laidOut p))).
  split; [now apply handleRoute_home|].
  do 2 (split; [reflexivity|]).
  split.
  { change (chrome (setDocumentTitle "Home - Doc." (renderHome (laidOut p))))
      with (chrome (applyLayout (resolveNamedRoute (getCurrentRoute p)) p)).
    now rewrite Hname, chrome_applyLayout. }
  split; [exact Hname | now repeat split].
Qed.

Lemma home_for_root_or_empty_path_witness :
  exists p',
    handleRoute offlineFetch 1 (bootPage natureManifest EmptyString) = Finished p'
    /\ contentBody p' = homeMarkup.
Proof.
  destruct (home_for_root_or_empty_path offlineFetch
              (bootPage natureManifest EmptyString) 0 (or_intror eq_refl))
    as (p' & Hrun & Hbody & _).
  exists p'. now split.
Defined.

(** ** The breadcrumb in general *)

Lemma cumulativePath_snoc (parts : list string) (part : string) :
  cumulativePath (parts ++ [part]) = cumulativePath parts ++ "/" ++ part.
Proof. unfold cumulativePath. now rewrite fold_left_app. Qed.

Lemma crumbs_fold (parts : list string) (title : string) :
  forall done todo,
    parts = (done ++ todo)%list ->
    fold_left (crumbStep parts title) todo
      ((CrumbLink "/" "Home"
          :: flat_map (crumbsOfPart parts title) (seq 0 (List.length done)))%list,
       cumulativePath done, List.length done)
    = ((CrumbLink "/" "Home"
          :: flat_map (crumbsOfPart parts title) (seq 0 (List.length parts)))%list,
       cumulativePath parts, List.length parts).
Proof.
  intros done todo. revert done.
  induction todo as [|part todo IH]; intros done Hparts.
  - rewrite app_nil_r in Hparts. now subst.
  - cbn [fold_left crumbStep].
    assert (Hsplit : parts = ((done ++ [part]) ++ todo)%list)
      by now rewrite <- app_assoc.
    specialize (IH (done ++ [part])%list Hsplit).
    rewrite length_app, Nat.add_1_r in IH. cbn [List.length] in IH.
    rewrite seq_S, flat_map_app, cumulativePath_snoc in IH.
    cbn [flat_map] in IH. rewrite app_nil_r in IH.
    rewrite <- IH. clear IH. cbn [Nat.add].
    remember (flat_map (crumbsOfPart parts title) (seq 0 (List.length done))) as before.
    do 2 f_equal. unfold crumbsOfPart.
    assert (Hfirst : firstn (S (List.length done)) parts = (done ++ [part])%list).
    { rewrite Hsplit, <- (Nat.add_1_r (List.length done)).
      replace (List.length done + 1) with (List.length (done ++ [part])%list)
        by (rewrite length_app; reflexivity).
      now rewrite firstn_app, Nat.sub_diag, firstn_O, app_nil_r, firstn_all. }
    assert (Hnth : nth (List.length done) parts EmptyString = part).
    { rewrite Hparts, app_nth2, Nat.sub_diag by lia. reflexivity. }
    rewrite Hfirst, Hnth, cumulativePath_snoc.
    destruct (Nat.eqb (List.length done) (List.length parts - 1));
      cbn [app]; now rewrite <- app_assoc.
Qed.

Lemma breadcrumbCrumbs_closed (route : string) (routeData : RouteData.t) :
  breadcrumbCrumbs route routeData
  = (CrumbLink "/" "Home"
       :: flat_map (crumbsOfPart (breadcrumbParts route) (RouteData.title routeData))
            (seq 0 (List.length (breadcrumbParts route))))%list.
Proof.
  unfold breadcrumbCrumbs.
  exact (f_equal (fun acc => fst (fst acc))
           (crumbs_fold (breadcrumbParts route) (RouteData.title routeData)
              [] (breadcrumbParts route) eq_refl)).
Qed.

Lemma linkTextSegments_crumbsOfParts (parts : list string) (title : string)
    (indexes : list nat) :
  List.length (linkTextSegments (flat_map (crumbsOfPart parts title) indexes))
  = List.length indexes.
Proof.
  induction indexes as [|i indexes IH]; [reflexivity|].
  cbn [flat_map crumbsOfPart app]. unfold linkTextSegments in *.
  cbn [filter isSeparator negb].
  destruct (Nat.eqb i (List.length parts - 1)); cbn [isSeparator negb List.length];
    now rewrite IH.
Qed.

(** X11: the breadcrumb of any path. It starts with the [Home] link to ['/'];
    then, for each non-empty segment of the path in turn, a separator and
    either, for every segment but the last, a link labelled with the segment
    and pointing to the path of the segments so far, or, for the last, the
    route's title as text. So it has one link or text segment more than the
    path has segments, and for a path without segments the [Home] link alone;
    and the markup written to the breadcrumb is the markup of these pieces. *)
Theorem breadcrumb_of_path (route : string) (routeData : RouteData.t) (p : Page) :
  breadcrumbCrumbs route routeData
  = (CrumbLink "/" "Home"
       :: flat_map
            (fun i =>
               [CrumbSeparator;
                if Nat.eqb i (List.length (breadcrumbParts route) - 1)
                then CrumbText (RouteData.title routeData)
                else CrumbLink (cumulativePath (firstn (S i) (breadcrumbParts route)))
                       (nth i (breadcrumbParts route) EmptyString)])
            (seq 0 (List.length (breadcrumbParts route))))%list
  /\ List.length (linkTextSegments (breadcrumbCrumbs route routeData))
     = S (List.length (breadcrumbParts route))
  /\ (breadcrumbParts route = [] ->
      breadcrumbCrumbs route routeData = [CrumbLink "/" "Home"])
  /\ breadcrumbHtml (updateBreadcrumb route routeData p)
     = crumbsMarkup (breadcrumbCrumbs route routeData).
Proof.
  split; [apply breadcrumbCrumbs_closed|].
  split.
  { rewrite breadcrumbCrumbs_closed.
    change (linkTextSegments (CrumbLink "/" "Home" :: ?l))
      with (CrumbLink "/" "Home" :: linkTextSegments l).
    cbn [List.length]. f_equal.
    rewrite (linkTextSegments_crumbsOfParts (breadcrumbParts route)
               (RouteData.title routeData)).
    apply length_seq. }
  split.
  { intros Hnone. rewrite breadcrumbCrumbs_closed, Hnone. reflexivity. }
  apply breadcrumbMarkup_crumbs.
Qed.

(** ** The fallback matcher in general *)

Lemma findMatchingRoute_none (table : list (string * RouteData.t)) (route : string) :
  findMatchingRoute table route = None
  <-> forall k, In k (map fst table) -> prefixRelated k route = false.
Proof.
  unfold prefixRelated.
  induction table as [|[k v] table IH]; simpl.
  - split; [intros _ k [] | reflexivity].
  - destruct (startsWith k route || startsWith route k) eqn:Hk.
    + split; [discriminate|]. intros H. specialize (H k (or_introl eq_refl)). congruence.
    + rewrite IH. split.
      * intros H k' [<-|Hin]; [exact Hk | now apply H].
      * intros H k' Hin. apply H. now right.
Qed.

Lemma findMatchingRoute_first (table : list (string * RouteData.t)) (route r : string) :
  findMatchingRoute table route = Some r
  <-> exists before v after,
        table = (before ++ (r, v) :: after)%list
        /\ prefixRelated r route = true
        /\ forall k, In k (map fst before) -> prefixRelated k route = false.
Proof.
  unfold prefixRelated.
  induction table as [|[k v] table IH]; simpl.
  - split; [discriminate|]. intros (before & v & after & H & _).
    destruct before; discriminate H.
  - destruct (startsWith k route || startsWith route k) eqn:Hk.
    + split.
      * intros [= <-]. exists [], v, table. repeat split; [exact Hk | intros k' []].
      * intros (before & v' & after & Htable & Hr & Hbefore).
        destruct before as [|[k0 v0] before]; simpl in Htable.
        -- now injection Htable as -> _ _.
        -- injection Htable as -> _ _.
           specialize (Hbefore k0 (or_introl eq_refl)). congruence.
    + rewrite IH. split.
      * intros (before & v' & after & -> & Hr & Hbefore).
        exists ((k, v) :: before), v', after. repeat split; [exact Hr|].
        intros k' [<-|Hin]; [exact Hk | now apply Hbefore].
      * intros (before & v' & after & Htable & Hr & Hbefore).
        destruct before as [|[k0 v0] before]; simpl in Htable.
        -- injection Htable as -> _ _. congruence.
        -- injection Htable as -> -> ->.
           exists before, v', after. repeat split; [exact Hr|].
           intros k' Hin. apply Hbefore. now right.
Qed.

Lemma prefixRelated_refl (route : string) : prefixRelated route route = true.
Proof.
  unfold prefixRelated.
  assert (H : startsWith route route = true).
  { apply startsWith_iff. exists EmptyString. now rewrite append_empty_r. }
  now rewrite H.
Qed.

(** X12: the fallback matcher answers with the first key of the table, in
    insertion order, that is a prefix of the requested path or has the
    requested path as a prefix: every key before it is unrelated to the path,
    and a longer or closer match further down is not preferred. It answers
    with nothing exactly when no key of the table is related to the path; so
    it always answers when the path itself is a key. *)
Theorem findMatchingRoute_first_match (table : list (string * RouteData.t))
    (route : string) :
  (forall r,
      findMatchingRoute table route = Some r
      <-> exists before v after,
            table = (before ++ (r, v) :: after)%list
            /\ (startsWith r route || startsWith route r) = true
            /\ forall k,
                In k (map fst before) ->
                (startsWith k route || startsWith route k) = false)
  /\ (findMatchingRoute table route = None
      <-> forall k,
            In k (map fst table) ->
            (startsWith k route || startsWith route k) = false)
  /\ (In route (map fst table) -> findMatchingRoute table route <> None).
Proof.
  split; [intros r; apply findMatchingRoute_first|].
  split; [apply findMatchingRoute_none|].
  intros Hin Hnone.
  apply (proj1 (findMatchingRoute_none table route) Hnone) in Hin.
  now rewrite prefixRelated_refl in Hin.
Qed.

(** ** The path normalizer on the usual content paths *)

Lemma append_length (a b : string) :
  String.length (a ++ b) = String.length a + String.length b.
Proof. induction a as [|x a IH]; simpl; [reflexivity | now rewrite IH]. Qed.

Lemma replaceAtEnd_prefix (eqc : ascii -> ascii -> bool) (pat s : string) :
  exists rest, s = replaceAtEnd eqc pat s ++ rest.
Proof.
  induction s as [|c s [rest IH]]; simpl.
  - destruct (matchesBy eqc pat EmptyString); now exists EmptyString.
  - destruct (matchesBy eqc pat (String c s)).
    + now exists (String c s).
    + exists rest. simpl. now rewrite <- IH.
Qed.

Lemma replaceAtEnd_suffix (eqc : ascii -> ascii -> bool) (pat s t : string) :
  matchesBy eqc pat t = true -> replaceAtEnd eqc pat (s ++ t) = s.
Proof.
  intros Ht. induction s as [|c s IH].
  - destruct t; simpl in *; now rewrite Ht.
  - cbn [append replaceAtEnd].
    destruct (matchesBy eqc pat (String c (s ++ t))) eqn:Hm.
    + apply matchesBy_length in Hm. apply matchesBy_length in Ht.
      simpl in Hm. rewrite append_length in Hm. lia.
    + now rewrite IH.
Qed.

Lemma pathToSubRoute_index_document (dir idx : string) :
  matchesBy sameCharIgnoreCase "/readme" idx = true ->
  endsWithBy sameCharIgnoreCase "/readme" dir = false ->
  pathToSubRoute (JsString (dir ++ idx ++ ".html")) = dir.
Proof.
  intros Hidx Hdir.
  rewrite pathToSubRoute_string, <- append_assoc.
  rewrite (replaceAtEnd_suffix sameChar ".html" (dir ++ idx) ".html" eq_refl).
  rewrite (replaceAtEnd_suffix sameCharIgnoreCase "/README" dir idx).
  - now apply replaceAtEnd_no_match.
  - exact (eq_trans (matchesBy_ignoreCase_upper "/readme" idx) Hidx).
Qed.

Lemma pathToSubRoute_page (name : string) :
  endsWithBy sameCharIgnoreCase "/readme" name = false ->
  pathToSubRoute (JsString (name ++ ".html")) = name.
Proof.
  intros Hname.
  rewrite pathToSubRoute_string.
  rewrite (replaceAtEnd_suffix sameChar ".html" name ".html" eq_refl).
  rewrite (replaceAtEnd_no_match sameCharIgnoreCase "/README")
    by now rewrite endsWith_README_readme.
  now apply replaceAtEnd_no_match.
Qed.

Lemma pathToSubRoute_cuts (s : string) :
  exists rest, s = pathToSubRoute (JsString s) ++ rest.
Proof.
  rewrite pathToSubRoute_string.
  destruct (replaceAtEnd_prefix sameChar ".html" s) as [r1 H1].
  destruct (replaceAtEnd_prefix sameCharIgnoreCase "/README"
              (replaceAtEnd sameChar ".html" s)) as [r2 H2].
  destruct (replaceAtEnd_prefix sameCharIgnoreCase "/readme"
              (replaceAtEnd sameCharIgnoreCase "/README"
                 (replaceAtEnd sameChar ".html" s))) as [r3 H3].
  exists (r3 ++ r2 ++ r1).
  rewrite <- !append_assoc, <- H3, <- H2. exact H1.
Qed.

(** X13: the route of a content path is always a prefix of the content path:
    the normalizer only cuts characters off its end, never adds or changes
    one. *)
Theorem pathToSubRoute_is_prefix (s : string) :
  exists rest, s = pathToSubRoute (JsString s) ++ rest.
Proof. apply pathToSubRoute_cuts. Qed.

(** X14: the source's example in general. For a folder path [dir] that does
    not itself end in a readme segment, the index document
    [dir + '/README.html'], in any letter case of [README], has the route
    [dir], and so has the page [dir + '.html']: a folder's index document and a
    page named like the folder get the same route. *)
Theorem pathToSubRoute_folder_and_page (dir idx : string) :
  matchesBy sameCharIgnoreCase "/readme" idx = true ->
  endsWithBy sameCharIgnoreCase "/readme" dir = false ->
  pathToSubRoute (JsString (dir ++ idx ++ ".html")) = dir
  /\ pathToSubRoute (JsString (dir ++ ".html")) = dir
  /\ pathToRoute (JsString (dir ++ idx ++ ".html"))
     = pathToRoute (JsString (dir ++ ".html")).
Proof.
  intros Hidx Hdir.
  pose proof (pathToSubRoute_index_document dir idx Hidx Hdir) as H1.
  pose proof (pathToSubRoute_page dir Hdir) as H2.
  unfold pathToRoute. now rewrite H1, H2.
Qed.

Lemma pathToSubRoute_folder_and_page_witness :
  pathToSubRoute (JsString ("/nature" ++ "/ReadMe" ++ ".html")) = "/nature"
  /\ pathToSubRoute (JsString ("/nature" ++ ".html")) = "/nature".
Proof.
  destruct (pathToSubRoute_folder_and_page "/nature" "/ReadMe" eq_refl eq_refl)
    as (H1 & H2 & _).
  now split.
Defined.

(** ** The route table, entry by entry *)

Lemma fold_lastWrite_In {V : Type} (k : string) (writes : list (string * V)) (v : V) :
  forall acc,
    fold_left (fun acc e => if fst e =? k then Some (snd e) else acc) writes acc
    = Some v ->
    acc = Some v \/ In (k, v) writes.
Proof.
  induction writes as [|[k1 v1] writes IH]; intros acc H; simpl in H; [now left|].
  destruct (IH _ H) as [Hacc|Hin]; [|right; now right].
  destruct (String.eqb_spec k1 k) as [->|Hne].
  - injection Hacc as ->. right. now left.
  - now left.
Qed.

Lemma mapGet_built_In (items : list ManifestNode) (k : string) (routeData : RouteData.t) :
  mapGet k (routes (buildRoutes items "" newRouter)) = Some routeData ->
  exists n, In n (allNodes "" items) /\ nodeEntry n = (k, routeData).
Proof.
  rewrite routes_buildRoutes_fresh, mapGet_applyWrites. simpl mapGet.
  intros H. apply fold_lastWrite_In in H as [H|H]; [discriminate|].
  apply in_map_iff in H as (n & Hn & Hin). eauto.
Qed.

Lemma nodesOfItem_parent (item : ManifestNode) :
  forall start parent x,
    In (parent, x) (nodesOfItem start item) ->
    parent = start
    \/ exists n, In n (nodesOfItem start item) /\ nodeRoute (snd n) = parent.
Proof.
  induction item as [title type content_path children IH]
    using ManifestNode_forest_ind.
  intros start parent x. cbn [nodesOfItem].
  intros [Hhead|Htail]; [left; congruence|].
  right.
  apply in_flat_map in Htail as (child & Hchild & Hin).
  rewrite Forall_forall in IH.
  destruct (IH child Hchild _ _ _ Hin) as [->|(n & Hn & Hroute)].
  - exists (start, Item title type content_path children). split; [now left|].
    reflexivity.
  - exists n. split; [|exact Hroute].
    right. apply in_flat_map. eauto.
Qed.

Lemma allNodes_parent (items : list ManifestNode) (start parent : string)
    (x : ManifestNode) :
  In (parent, x) (allNodes start items) ->
  parent = start
  \/ exists n, In n (allNodes start items) /\ nodeRoute (snd n) = parent.
Proof.
  unfold allNodes. intros H.
  apply in_flat_map in H as (item & Hitem & Hin).
  destruct (nodesOfItem_parent item _ _ _ Hin) as [->|(n & Hn & Hroute)];
    [now left|].
  right. exists n. split; [|exact Hroute]. apply in_flat_map. eauto.
Qed.

(** X15: looking up what was built. After [buildRoutes] on a new router, the
    lookup of a node's route gives the entry of that very node, with its
    title, type and content path and the route of its parent as [parentPath]
    (the empty string at the top level), provided no other node of the forest
    normalizes to the same route. *)
Theorem buildRoutes_lookup (items : list ManifestNode) (parentPath title type : string)
    (content_path : JsOptString) (children : list ManifestNode) :
  In (parentPath, Item title type content_path children) (allNodes "" items) ->
  (forall n,
      In n (allNodes "" items) ->
      nodeRoute (snd n) = pathToRoute content_path ->
      n = (parentPath, Item title type content_path children)) ->
  mapGet (pathToRoute content_path) (routes (buildRoutes items "" newRouter))
  = Some (RouteData.mk title type content_path parentPath notes).
Proof.
  intros Hin Hunique.
  destruct (proj1 (mapGet_In_keys (pathToRoute content_path)
                     (routes (buildRoutes items "" newRouter)))) as [routeData Hget].
  { rewrite routes_buildRoutes_fresh, keys_applyWrites, nodeEntry_keys, in_map_iff.
    left. exists (parentPath, Item title type content_path children).
    split; [reflexivity | exact Hin]. }
  rewrite Hget. f_equal.
  destruct (mapGet_built_In items _ _ Hget) as (n & Hn & Hentry).
  assert (Hroute : nodeRoute (snd n) = pathToRoute content_path)
    by now rewrite <- nodeEntry_key, Hentry.
  rewrite (Hunique n Hn Hroute) in Hentry. unfold pathToRoute in Hentry.
  cbn [nodeEntry snd fst] in Hentry.
  now injection Hentry as <-.
Qed.

Lemma buildRoutes_lookup_witness :
  mapGet (pathToRoute (JsString "/nature/trees.html"))
    (routes (buildRoutes natureManifest "" newRouter))
  = Some (RouteData.mk "Trees" "file" (JsString "/nature/trees.html")
            "/notes/nature" notes).
Proof.
  apply (buildRoutes_lookup natureManifest "/notes/nature" "Trees" "file"
           (JsString "/nature/trees.html") []).
  - simpl. right. left. reflexivity.
  - intros n Hin Hroute. simpl in Hin.
    destruct Hin as [<-|[<-|[]]]; [discriminate Hroute | reflexivity].
Defined.

(** X16: every entry of a freshly built table is consistent with the table.
    It is stored under the route of its own content path, it belongs to the
    notes section, and its [parentPath] is either empty (a top-level node) or
    itself a route with an entry in the table: parent links never dangle. *)
Theorem buildRoutes_entries_consistent (items : list ManifestNode) (k : string)
    (routeData : RouteData.t) :
  mapGet k (routes (buildRoutes items "" newRouter)) = Some routeData ->
  k = pathToRoute (RouteData.contentPath routeData)
  /\ RouteData.namedRoute routeData = notes
  /\ (RouteData.parentPath routeData = EmptyString
      \/ exists parentData,
          mapGet (RouteData.parentPath routeData)
            (routes (buildRoutes items "" newRouter)) = Some parentData).
Proof.
  intros Hget.
  destruct (mapGet_built_In items k routeData Hget) as ([parent item] & Hin & Hentry).
  destruct item as [title type content_path children].
  cbn [nodeEntry snd fst] in Hentry.
  injection Hentry as <- <-. cbn [RouteData.contentPath RouteData.namedRoute
                                    RouteData.parentPath].
  split; [reflexivity|]. split; [reflexivity|].
  destruct (allNodes_parent items "" parent _ Hin) as [->|(n & Hn & Hroute)];
    [now left|].
  right. apply mapGet_In_keys.
  rewrite routes_buildRoutes_fresh, keys_applyWrites, nodeEntry_keys, in_map_iff.
  left. now exists n.
Qed.

Lemma buildRoutes_entries_consistent_witness :
  exists parentData,
    mapGet "/notes/nature" (routes (buildRoutes natureManifest "" newRouter))
    = Some parentData.
Proof.
  destruct (buildRoutes_entries_consistent natureManifest "/notes/nature/trees"
              (RouteData.mk "Trees" "file" (JsString "/nature/trees.html")
                 "/notes/nature" notes) eq_refl)
    as (_ & _ & [Hempty|Hparent]); [discriminate Hempty | exact Hparent].
Defined.

(** X17: [buildRoutes] only adds. On any router and under any [parentPath],
    every route that had an entry still has one afterwards; a route that no
    node of the forest normalizes to keeps its entry unchanged; the flat list
    keeps its elements in front and grows by one element per node of the
    forest, in depth-first order with parents before children; and
    [currentNamedRoute] is untouched. *)
Theorem buildRoutes_only_adds (items : list ManifestNode) (parentPath : string)
    (r : Router) :
  (forall k,
      In k (map fst (routes r)) ->
      In k (map fst (routes (buildRoutes items parentPath r))))
  /\ (forall k,
        (forall n, In n (allNodes parentPath items) -> nodeRoute (snd n) <> k) ->
        mapGet k (routes (buildRoutes items parentPath r)) = mapGet k (routes r))
  /\ flatRoutes (buildRoutes items parentPath r)
     = (flatRoutes r ++ map nodeFlat (allNodes parentPath items))%list
  /\ map FlatRoute.route (map nodeFlat (allNodes parentPath items))
     = map (fun n => pathToRoute (nodeContentPath (snd n))) (allNodes parentPath items)
  /\ currentNamedRoute (buildRoutes items parentPath r) = currentNamedRoute r.
Proof.
  destruct (buildRoutes_BuildsAs items parentPath r) as (Ht & Hf & Hc).
  split; [|split; [|split; [exact Hf | split; [|exact Hc]]]].
  - intros k Hin. rewrite Ht, keys_applyWrites. now right.
  - intros k Hother. rewrite Ht, mapGet_applyWrites.
    apply fold_lastWrite_unwritten.
    rewrite nodeEntry_keys, in_map_iff. intros (n & Hn & Hin).
    exact (Hother n Hin Hn).
  - rewrite map_map. apply map_ext. intros n. apply nodeFlat_route.
Qed.

(** ** A click on a sidebar link *)




(** ** The sidebar markup *)






Lemma flat_map_flat_map {A B C : Type} (f : B -> list C) (g : A -> list B)
    (l : list A) :
  flat_map f (flat_map g l) = flat_map (fun x => flat_map f (g x)) l.
Proof.
  induction l as [|x l IH]; simpl; [reflexivity|].
  now rewrite flat_map_app, IH.
Qed.

Lemma map_of_flat_map {A B C : Type} (f : B -> C) (g : A -> list B) (l : list A) :
  map f (flat_map g l) = flat_map (fun x => map f (g x)) l.
Proof.
  induction l as [|x l IH]; simpl; [reflexivity | now rewrite map_app, IH].
Qed.

Lemma flat_map_ext_Forall {A B : Type} (f g : A -> list B) (l : list A) :
  Forall (fun x => f x = g x) l -> flat_map f l = flat_map g l.
Proof.
  induction 1 as [|x l Hx _ IH]; simpl; [reflexivity | now rewrite Hx, IH].
Qed.

Lemma treeLinkHrefs_item (item : ManifestNode) :
  forall depth parentPath,
    flat_map treeLinkHrefs (fileTreeItemDom depth item)
    = map (fun n => nodeRoute (snd n)) (nodesOfItem parentPath item).
Proof.
  induction item as [title type content_path children IH]
    using ManifestNode_forest_ind.
  intros depth parentPath.
  cbn [fileTreeItemDom nodesOfItem map snd].
  assert (Hchildren :
    flat_map treeLinkHrefs (flat_map (fileTreeItemDom (S depth)) children)
    = map (fun n => nodeRoute (snd n))
        (flat_map (nodesOfItem ("/notes" ++ pathToSubRoute content_path)) children)).
  { rewrite flat_map_flat_map, map_of_flat_map.
    apply flat_map_ext_Forall.
    eapply Forall_impl; [|exact IH]. intros child H. apply H. }
  rewrite <- Hchildren.
  destruct (Nat.ltb 0 (List.length children)) eqn:Hhas, (type =? "directory");
    cbn; f_equal.
  1, 2: now rewrite !app_nil_r.
  all: destruct children; [reflexivity | cbn in Hhas; discriminate Hhas].
Qed.

Lemma treeLinkHrefs_fileTreeDom (items : list ManifestNode) (depth : nat)
    (parentPath : string) :
  flat_map treeLinkHrefs (fileTreeDom items depth)
  = map (fun n => nodeRoute (snd n)) (allNodes parentPath items).
Proof.
  unfold fileTreeDom, allNodes.
  rewrite flat_map_flat_map, map_of_flat_map.
  apply flat_map_ext_Forall, Forall_forall.
  intros item _. apply treeLinkHrefs_item.
Qed.

Lemma itemLinks_sidebarItem (item : ManifestNode) :
  forall parentPath,
    itemLinks (sidebarItem item)
    = map (fun n => (nodeRoute (snd n), false)) (nodesOfItem parentPath item).
Proof.
  induction item as [title type content_path children IH]
    using ManifestNode_forest_ind.
  intros parentPath. cbn [sidebarItem itemLinks nodesOfItem map snd]. f_equal.
  rewrite map_of_flat_map.
  induction IH as [|child children Hchild _ IHchildren]; simpl; [reflexivity|].
  now rewrite (Hchild ("/notes" ++ pathToSubRoute content_path)), IHchildren.
Qed.


(** X20: the sidebar lists the flat routes. In document order, the [href]s
    of the [tree-link] elements [buildFileTree] writes are the routes of
    [flatRoutes] after [buildRoutes] on a new router, one link per node of the
    manifest, parents before children; and they are the links of the sidebar
    the page model starts from, none of them active. *)
Theorem sidebar_lists_flat_routes (items : list ManifestNode) :
  flat_map treeLinkHrefs (fileTreeDom items 0)
  = map FlatRoute.route (flatRoutes (buildRoutes items "" newRouter))
  /\ forestLinks (map sidebarItem items)
     = map (fun href => (href, false)) (flat_map treeLinkHrefs (fileTreeDom items 0)).
Proof.
  rewrite (treeLinkHrefs_fileTreeDom items 0 "").
  split.
  - rewrite flatRoutes_buildRoutes_fresh, map_map.
    apply map_ext. intros n. now rewrite nodeFlat_route.
  - unfold forestLinks, allNodes.
    rewrite map_map, map_of_flat_map.
    induction items as [|item items IH]; simpl; [reflexivity|].
    now rewrite (itemLinks_sidebarItem item ""), IH.
Qed.

(** ** Mobile menu and folder toggles *)

Lemma menuAfter_inSync (m : Menu) (e : MenuEvent) :
  menuInSync m -> menuInSync (menuAfter m e).
Proof.
  intros [H1 H2]. destruct e as [| |innerWidth]; simpl.
  - split; simpl; congruence.
  - now split.
  - destruct (Nat.leb innerWidth 768); now split.
Qed.

(** X21: the mobile menu stays in one piece. Starting from a state in which
    the toggle, the sidebar and the overlay agree (as at startup, all off),
    every sequence of clicks on the toggle, the overlay and links leaves them
    in agreement; a click on the overlay, or on a link in a window at most 768
    wide, closes all three, a link click in a wider window changes nothing,
    and two clicks on the toggle give the state back. *)
Theorem menu_stays_in_sync (m : Menu) (events : list MenuEvent) :
  menuInSync m ->
  menuInSync (fold_left menuAfter events m)
  /\ (forall innerWidth,
        innerWidth <= 768 ->
        menuAfter m (LinkClicked innerWidth) = mkMenu false false false)
  /\ (forall innerWidth, 768 < innerWidth -> menuAfter m (LinkClicked innerWidth) = m)
  /\ menuAfter m OverlayClicked = mkMenu false false false
  /\ menuAfter (menuAfter m ToggleClicked) ToggleClicked = m.
Proof.
  intros Hsync. split.
  { revert m Hsync. induction events as [|e events IH]; intros m Hsync; simpl;
      [exact Hsync|].
    now apply IH, menuAfter_inSync. }
  split.
  { intros w Hw. simpl. now rewrite (proj2 (Nat.leb_le w 768) Hw). }
  split.
  { intros w Hw. simpl. now rewrite (proj2 (Nat.leb_gt w 768) Hw). }
  split; [reflexivity|].
  now destruct m as [[|] [|] [|]].
Qed.

Lemma menu_stays_in_sync_witness :
  menuInSync (mkMenu false false false)
  /\ menuInSync
       (fold_left menuAfter [ToggleClicked; LinkClicked 1024; LinkClicked 375]
          (mkMenu false false false)).
Proof.
  split; [now split|].
  exact (proj1 (menu_stays_in_sync (mkMenu false false false)
                  [ToggleClicked; LinkClicked 1024; LinkClicked 375]
                  (conj eq_refl eq_refl))).
Defined.








(** ** The router of app.js *)













